(** * Beer tap dispenser: the lifecycle manager, embedded and verified

    A shallow embedding of [src/managers/dispenserManager.js] and
    [src/utils/utils.js].  The manager owns three containers that every
    method mutates in place; here they are the fields of one record that is
    threaded through a state-and-exception monad.  A thrown [Error] does not
    undo the assignments made before it, so a completion always carries the
    store as it is at that point.

    Numbers are JavaScript Numbers, that is IEEE 754 binary64 values: the
    kernel's primitive floats.  A [Date] is its time value, an integral
    number of milliseconds, or the invalid date. *)

From Stdlib Require Import ZArith Floats Lia.
From stdpp Require Import gmap strings list.

Local Open Scope Z_scope.

(** ** JavaScript numbers *)

Module Number.

(** The Number value of a mathematical integer (round to nearest, ties to
    even); exact below 2^53 in magnitude. *)
Definition of_Z (z : Z) : float :=
  SF2Prim (binary_normalize prec emax z 0 false).

(** The integer [n] for which [n / 100 - x] is as close to zero as possible,
    the larger one when there are two, for [x = m * 2^e] with [m > 0]. *)
Definition nearest_hundredths (m : positive) (e : Z) : Z :=
  match e with
  | Zneg k => (200 * Zpos m + 2 ^ Zpos k) / 2 ^ (Zpos k + 1)
  | _ => 100 * Zpos m * 2 ^ e
  end.

(** [Number(x.toFixed(2))].  [toFixed] prints NaN and the infinities as they
    are, and a value of magnitude 10^21 or more in the shortest form that
    reads back as the same Number; below that it prints the digits of
    [nearest_hundredths] of the magnitude with the sign of [x] in front
    (no sign for a zero).  [Number] reads the decimal back as the nearest
    Number. *)
Definition toFixed2 (x : float) : float :=
  match Prim2SF x with
  | S754_finite s m e =>
      if PrimFloat.leb 1e21 (PrimFloat.abs x) then x
      else
        match nearest_hundredths m e with
        | Zpos n =>
            SF2Prim (SFdiv prec emax (S754_finite s n 0) (S754_finite false 100 0))
        | _ => if s then PrimFloat.opp PrimFloat.zero else PrimFloat.zero
        end
  | S754_zero _ => PrimFloat.zero
  | S754_infinity _ | S754_nan => x
  end.

(** [v || 0] for a Map entry holding a Number: [undefined], NaN and the two
    zeros are falsy. *)
Definition or_zero (v : option float) : float :=
  match v with
  | Some x => if PrimFloat.is_nan x || PrimFloat.is_zero x then PrimFloat.zero else x
  | None => PrimFloat.zero
  end.

End Number.

(** ** Dates *)

(** A [Date] object: a time value in milliseconds since the epoch, or the
    invalid date.  JavaScript keeps time values integral and within
    8.64e15 of zero, where [Number.of_Z] is exact. *)
Inductive Date : Type :=
  | ValidDate (ms : Z)
  | InvalidDate.

#[global] Instance Date_eq_dec : EqDecision Date.
Proof. solve_decision. Defined.

Module DateOps.

(** [new Date(value)] where [value] is a [Date] or [null]: a copy of the
    date, and the epoch for [null]. *)
Definition new_Date (value : option Date) : Date :=
  match value with
  | Some d => d
  | None => ValidDate 0
  end.

(** The Number a [Date] converts to in arithmetic and comparisons. *)
Definition valueOf (d : Date) : float :=
  match d with
  | ValidDate ms => Number.of_Z ms
  | InvalidDate => PrimFloat.nan
  end.

(** [isNaN(Date.parse(d))] for a [Date] object [d]: the date is printed and
    read back, which fails for the invalid date only. *)
Definition parse_isNaN (d : Date) : bool :=
  match d with
  | ValidDate _ => false
  | InvalidDate => true
  end.

(** [a <= b] on two [Date] objects: the comparison of their time values,
    which are integers, and false as soon as one of them is NaN. *)
Definition leb (a b : Date) : bool :=
  match a, b with
  | ValidDate x, ValidDate y => bool_decide (x ≤ y)
  | _, _ => false
  end.

End DateOps.

(** ** Data model *)

(** [DispenserState] *)
Definition OPEN : string := "open".
Definition CLOSE : string := "close".

(** The entries of [src/constants/messages.js] that the manager uses. *)
Inductive Message : Type :=
  | DISPENSER_NOT_FOUND
  | DISPENSER_ALREADY_IN_DESIRED_STATE
  | INVALID_DISPENSER_STATUS
  | INVALID_DATE_FORMAT
  | INVALID_DATE_ORDER
  | INVALID_FLOW.

(** What a call can throw: [new Error(message)], or the engine's
    [TypeError] on a property access through [undefined]. *)
Inductive Exception : Type :=
  | Error (message : Message)
  | TypeError.

(** The values a caller may pass where a Number is expected. *)
Inductive JSValue : Type :=
  | VUndefined
  | VNull
  | VBoolean (b : bool)
  | VNumber (x : float)
  | VString (s : string).

Module Dispenser.
Record t : Type := mk {
  id : string;
  flow_volume : float;
  state : string;
  updated_at : Date
}.
End Dispenser.

Module StatusChange.
Record t : Type := mk {
  opened_at : Date;
  closed_at : option Date;
  flow_volume : float;
  total_spent : option float
}.
End StatusChange.

(** The three containers the constructor initialises. *)
Record DispenserManager : Type := mkManager {
  dispensers : list Dispenser.t;
  statusChanges : gmap string (list StatusChange.t);
  totalSpentPerDispenser : gmap string float
}.

Definition new_DispenserManager : DispenserManager :=
  {| dispensers := []; statusChanges := ∅; totalSpentPerDispenser := ∅ |}.

(** The object [changeDispenserStatus] returns. *)
Inductive StatusResult : Type :=
  | Failure (message : Message)
  | Success (dispenser : Dispenser.t).

(** The object [getSpending] returns. *)
Record Spending : Type := mkSpending {
  amount : float;
  usages : list StatusChange.t
}.

(** ** State and exceptions *)

Inductive Completion (A : Type) : Type :=
  | Return (a : A)
  | Throw (e : Exception).
Arguments Return {A} a.
Arguments Throw {A} e.

(** A method body: from the store before to the store after and how the
    call completed. *)
Definition M (A : Type) : Type :=
  DispenserManager → DispenserManager * Completion A.

Definition ret {A} (a : A) : M A := λ this, (this, Return a).
Definition throw {A} (e : Exception) : M A := λ this, (this, Throw e).
Definition bind {A B} (c : M A) (k : A → M B) : M B :=
  λ this,
    match c this with
    | (this', Return a) => k a this'
    | (this', Throw e) => (this', Throw e)
    end.
Definition get : M DispenserManager := λ this, (this, Return this).
Definition modify (f : DispenserManager → DispenserManager) : M unit :=
  λ this, (f this, Return tt).

Notation "x ←' c ;; k" := (bind c (λ x, k))
  (at level 100, c at next level, right associativity, only parsing).
Notation "c ;;' k" := (bind c (λ _, k))
  (at level 100, right associativity, only parsing).

Definition set_dispensers (f : list Dispenser.t → list Dispenser.t)
    (this : DispenserManager) : DispenserManager :=
  {| dispensers := f (dispensers this);
     statusChanges := statusChanges this;
     totalSpentPerDispenser := totalSpentPerDispenser this |}.

Definition set_statusChanges
    (f : gmap string (list StatusChange.t) → gmap string (list StatusChange.t))
    (this : DispenserManager) : DispenserManager :=
  {| dispensers := dispensers this;
     statusChanges := f (statusChanges this);
     totalSpentPerDispenser := totalSpentPerDispenser this |}.

Definition set_totalSpentPerDispenser
    (f : gmap string float → gmap string float)
    (this : DispenserManager) : DispenserManager :=
  {| dispensers := dispensers this;
     statusChanges := statusChanges this;
     totalSpentPerDispenser := f (totalSpentPerDispenser this) |}.

(** ** The manager *)

Section Manager.

(** [PRICE_PER_LITRE] of [src/constants/constants.js]; that file is not part
    of the sources at hand, so the constant is a parameter of the
    development. *)
Variable PRICE_PER_LITRE : float.

(** [calculateTotalSpent] of [src/utils/utils.js]. *)
Definition calculateTotalSpent (openedAt closedAt : Date) (flowVolume : float)
    : float :=
  let secondsOpen :=
    PrimFloat.div
      (PrimFloat.sub (DateOps.valueOf (DateOps.new_Date (Some closedAt)))
                     (DateOps.valueOf (DateOps.new_Date (Some openedAt))))
      1000 in
  let totalSpent :=
    PrimFloat.mul (PrimFloat.mul secondsOpen flowVolume) PRICE_PER_LITRE in
  Number.toFixed2 totalSpent.

(** [this.dispensers.find((dispenser) => dispenser.id === id)]: the first
    match, with its position in the array. *)
Definition find_dispenser (id : string) (l : list Dispenser.t)
    : option (nat * Dispenser.t) :=
  list_find (λ dispenser, Dispenser.id dispenser = id) l.

(** [createDispenser]; [uuid] is what [uuidv4()] returns and [now] the time
    value of [new Date()] in this call. *)
Definition createDispenser (uuid : string) (now : Z) (flow_volume : JSValue)
    : M Dispenser.t :=
  match flow_volume with
  | VNumber x =>
      if PrimFloat.leb x 0 then throw (Error INVALID_FLOW)
      else
        let dispenser :=
          {| Dispenser.id := uuid;
             Dispenser.flow_volume := x;
             Dispenser.state := CLOSE;
             Dispenser.updated_at := ValidDate now |} in
        modify (set_dispensers (λ l, l ++ [dispenser])) ;;'
        ret dispenser
  | _ => throw (Error INVALID_FLOW)
  end.

(** [updateTotalSpentPerDispenser] *)
Definition updateTotalSpentPerDispenser (id : string) (spentAmount : float)
    : M unit :=
  this ←' get ;;
  let total := Number.or_zero (totalSpentPerDispenser this !! id) in
  modify (set_totalSpentPerDispenser <[id := PrimFloat.add total spentAmount]>).

(** Assignments to fields of the last element of a usage array. *)
Definition close_period (closed_at : Date) (total_spent : float)
    (p : StatusChange.t) : StatusChange.t :=
  {| StatusChange.opened_at := StatusChange.opened_at p;
     StatusChange.closed_at := Some closed_at;
     StatusChange.flow_volume := StatusChange.flow_volume p;
     StatusChange.total_spent := Some total_spent |}.

Definition set_total_spent (total_spent : float) (p : StatusChange.t)
    : StatusChange.t :=
  {| StatusChange.opened_at := StatusChange.opened_at p;
     StatusChange.closed_at := StatusChange.closed_at p;
     StatusChange.flow_volume := StatusChange.flow_volume p;
     StatusChange.total_spent := Some total_spent |}.

Definition alter_last (f : StatusChange.t → StatusChange.t)
    (l : list StatusChange.t) : list StatusChange.t :=
  alter f (pred (length l)) l.

(** The branch [state === DispenserState.OPEN] of [changeDispenserStatus];
    [statusChanges] is [this.statusChanges.get(id)]. *)
Definition handle_open (id : string) (updatedAt : Date)
    (dispenser : Dispenser.t) (statusChanges : option (list StatusChange.t))
    : M unit :=
  let statusChange :=
    {| StatusChange.opened_at := updatedAt;
       StatusChange.closed_at := None;
       StatusChange.flow_volume := Dispenser.flow_volume dispenser;
       StatusChange.total_spent := None |} in
  match statusChanges with
  | Some l =>
      match last l with
      | Some lastStatusChange =>
          if DateOps.leb (DateOps.new_Date (Some updatedAt))
               (DateOps.new_Date (StatusChange.closed_at lastStatusChange))
          then throw (Error INVALID_DATE_ORDER)
          else modify (set_statusChanges <[id := l ++ [statusChange]]>)
      | None => modify (set_statusChanges <[id := l ++ [statusChange]]>)
      end
  | None => modify (set_statusChanges <[id := [statusChange]]>)
  end.

(** The branch [state === DispenserState.CLOSE]. *)
Definition handle_close (id : string) (updatedAt : Date)
    (statusChanges : option (list StatusChange.t)) : M unit :=
  match statusChanges with
  | Some l =>
      match last l with
      | Some lastStatusChange =>
          if DateOps.leb (DateOps.new_Date (Some updatedAt))
               (DateOps.new_Date (Some (StatusChange.opened_at lastStatusChange)))
          then throw (Error INVALID_DATE_ORDER)
          else
            let total_spent :=
              calculateTotalSpent (StatusChange.opened_at lastStatusChange)
                updatedAt (StatusChange.flow_volume lastStatusChange) in
            modify (set_statusChanges
                      <[id := alter_last (close_period updatedAt total_spent) l]>) ;;'
            updateTotalSpentPerDispenser id total_spent
      | None => throw TypeError
      end
  | None => ret tt
  end.

(** [changeDispenserStatus]; [id] and [state] are strings and [updatedAt] is
    a [Date], as the method's documentation has them (the route passes
    [new Date(updated_at)]).  The assignments to [dispenser.state] and
    [dispenser.updated_at] come before the branch on the requested state. *)
Definition changeDispenserStatus (id state : string) (updatedAt : Date)
    : M StatusResult :=
  this ←' get ;;
  match find_dispenser id (dispensers this) with
  | None => throw (Error DISPENSER_NOT_FOUND)
  | Some (i, dispenser) =>
      if bool_decide (state ≠ OPEN) && bool_decide (state ≠ CLOSE)
      then throw (Error INVALID_DISPENSER_STATUS)
      else if DateOps.parse_isNaN updatedAt
      then throw (Error INVALID_DATE_FORMAT)
      else if bool_decide (Dispenser.state dispenser = state)
      then ret (Failure DISPENSER_ALREADY_IN_DESIRED_STATE)
      else
        let dispenser :=
          {| Dispenser.id := Dispenser.id dispenser;
             Dispenser.flow_volume := Dispenser.flow_volume dispenser;
             Dispenser.state := state;
             Dispenser.updated_at := updatedAt |} in
        modify (set_dispensers <[i := dispenser]>) ;;'
        let statusChanges := statusChanges this !! id in
        (if bool_decide (state = OPEN)
         then handle_open id updatedAt dispenser statusChanges
         else if bool_decide (state = CLOSE)
         then handle_close id updatedAt statusChanges
         else ret tt) ;;'
        ret (Success dispenser)
  end.

(** [getSpending]; [now] is the time value of [new Date()] in this call.
    [usages] is the stored array itself, so it shows the assignment made to
    its last element. *)
Definition getSpending (now : Z) (id : string) : M Spending :=
  this ←' get ;;
  match find_dispenser id (dispensers this) with
  | None => throw (Error DISPENSER_NOT_FOUND)
  | Some _ =>
      match statusChanges this !! id with
      | None => ret {| amount := 0; usages := [] |}
      | Some spending =>
          match last spending with
          | None => throw TypeError
          | Some lastStatusChange =>
              match StatusChange.closed_at lastStatusChange with
              | None =>
                  let total_spent :=
                    calculateTotalSpent (StatusChange.opened_at lastStatusChange)
                      (ValidDate now) (StatusChange.flow_volume lastStatusChange) in
                  let spending' := alter_last (set_total_spent total_spent) spending in
                  modify (set_statusChanges <[id := spending']>) ;;'
                  updateTotalSpentPerDispenser id total_spent ;;'
                  this' ←' get ;;
                  ret {| amount := Number.or_zero (totalSpentPerDispenser this' !! id);
                         usages := spending' |}
              | Some _ =>
                  ret {| amount := Number.or_zero (totalSpentPerDispenser this !! id);
                         usages := spending |}
              end
          end
      end
  end.

(** ** Calls and reachable stores *)

Inductive Call : Type :=
  | CreateDispenser (uuid : string) (now : Z) (flow_volume : JSValue)
  | ChangeDispenserStatus (id state : string) (updatedAt : Date)
  | GetSpending (now : Z) (id : string).

(** The store a call leaves behind, however it completes. *)
Definition exec (c : Call) (this : DispenserManager) : DispenserManager :=
  match c with
  | CreateDispenser uuid now flow_volume =>
      fst (createDispenser uuid now flow_volume this)
  | ChangeDispenserStatus id state updatedAt =>
      fst (changeDispenserStatus id state updatedAt this)
  | GetSpending now id => fst (getSpending now id this)
  end.

(** Calls run one after the other, first call first. *)
Definition exec_all (cs : list Call) (this : DispenserManager)
    : DispenserManager :=
  foldl (λ s c, exec c s) this cs.

Inductive reachable : DispenserManager → Prop :=
  | reachable_new : reachable new_DispenserManager
  | reachable_exec c this : reachable this → reachable (exec c this).

(** ** What one call does to the store *)

(** The dispensers array after a call: unchanged, one dispenser pushed, or
    [state] and [updated_at] of one dispenser assigned. *)
Inductive dispensers_step (l : list Dispenser.t) : list Dispenser.t → Prop :=
  | dispensers_same : dispensers_step l l
  | dispensers_push d : dispensers_step l (l ++ [d])
  | dispensers_assign i d state updatedAt :
      l !! i = Some d →
      dispensers_step l
        (<[i := {| Dispenser.id := Dispenser.id d;
                   Dispenser.flow_volume := Dispenser.flow_volume d;
                   Dispenser.state := state;
                   Dispenser.updated_at := updatedAt |}]> l).

(** The usage arrays after a call on a store [this]: unchanged; a fresh open
    period pushed for an existing dispenser; the last period of an array
    closed, with the total the calculator gives; or the last period, open,
    given an estimate. *)
Inductive ledger_step (this : DispenserManager)
    : gmap string (list StatusChange.t) → Prop :=
  | ledger_same : ledger_step this (statusChanges this)
  | ledger_push id p :
      is_Some (find_dispenser id (dispensers this)) →
      StatusChange.closed_at p = None →
      StatusChange.total_spent p = None →
      ledger_step this
        (<[id := default [] (statusChanges this !! id) ++ [p]]> (statusChanges this))
  | ledger_close id l p t :
      statusChanges this !! id = Some (l ++ [p]) →
      ledger_step this
        (<[id := l ++ [close_period t
                         (calculateTotalSpent (StatusChange.opened_at p) t
                            (StatusChange.flow_volume p)) p]]>
           (statusChanges this))
  | ledger_estimate id l p total_spent :
      statusChanges this !! id = Some (l ++ [p]) →
      StatusChange.closed_at p = None →
      ledger_step this
        (<[id := l ++ [set_total_spent total_spent p]]> (statusChanges this)).

End Manager.

(** ** What is stated about usage arrays and stores *)

(** [l'] continues the usage array [l]: it is at least as long, every
    position of [l] still holds a period with the same [opened_at] and
    [flow_volume], and every position of [l] but the last holds the very
    same period. *)
Definition usage_extends (l l' : list StatusChange.t) : Prop :=
  (length l ≤ length l')%nat ∧
  ∀ i p, l !! i = Some p →
    ∃ p', l' !! i = Some p' ∧
      StatusChange.opened_at p' = StatusChange.opened_at p ∧
      StatusChange.flow_volume p' = StatusChange.flow_volume p ∧
      ((S i < length l)%nat → p' = p).

(** [this'] continues the store [this]: every position of the dispensers
    array still holds a dispenser with the same [id] and [flow_volume], and
    every usage array is continued. *)
Definition store_extends (this this' : DispenserManager) : Prop :=
  (∀ i d, dispensers this !! i = Some d →
     ∃ d', dispensers this' !! i = Some d' ∧
       Dispenser.id d' = Dispenser.id d ∧
       Dispenser.flow_volume d' = Dispenser.flow_volume d) ∧
  (∀ id l, statusChanges this !! id = Some l →
     ∃ l', statusChanges this' !! id = Some l' ∧ usage_extends l l').

(** The next period opens strictly after the previous one closed. *)
Definition strictly_after (prev next : StatusChange.t) : bool :=
  match StatusChange.closed_at prev, StatusChange.opened_at next with
  | Some (ValidDate c), ValidDate o => bool_decide (c < o)
  | _, _ => false
  end.

(** Each period's [opened_at] is strictly after the previous period's
    [closed_at]. *)
Fixpoint time_ordered (l : list StatusChange.t) : bool :=
  match l with
  | prev :: (next :: _) as l' => strictly_after prev next && time_ordered l'
  | _ => true
  end.

(** Every period but the last carries a [closed_at]. *)
Fixpoint open_only_last (l : list StatusChange.t) : bool :=
  match l with
  | p :: (_ :: _) as l' =>
      bool_decide (is_Some (StatusChange.closed_at p)) && open_only_last l'
  | _ => true
  end.

(** The number of periods without a [closed_at]. *)
Definition open_periods (l : list StatusChange.t) : nat :=
  length (filter (λ p, StatusChange.closed_at p = None) l).

(** ** Stores for the concrete runs *)

(** A value for the price constant in the runs below.  Nothing in them
    depends on the choice beyond the price not being zero. *)
Definition EXAMPLE_PRICE : float := 12.25.

(** One dispenser of flow volume 1, created at time 0 under the id "tap". *)
Definition tap_created : DispenserManager :=
  exec_all EXAMPLE_PRICE
    [CreateDispenser "tap" 0 (VNumber 1)] new_DispenserManager.

(** The tap opened at time 100. *)
Definition tap_open : DispenserManager :=
  exec_all EXAMPLE_PRICE
    [ChangeDispenserStatus "tap" OPEN (ValidDate 100)] tap_created.

(** The tap opened at time 100 and closed at time 2100. *)
Definition tap_closed : DispenserManager :=
  exec_all EXAMPLE_PRICE
    [ChangeDispenserStatus "tap" CLOSE (ValidDate 2100)] tap_open.

(** The open tap after a close request at time 50, which throws. *)
Definition tap_close_refused : DispenserManager :=
  exec_all EXAMPLE_PRICE
    [ChangeDispenserStatus "tap" CLOSE (ValidDate 50)] tap_open.


Definition tap (state : string) (updated_at : Z) : Dispenser.t :=
  {| Dispenser.id := "tap"; Dispenser.flow_volume := 1;
     Dispenser.state := state; Dispenser.updated_at := ValidDate updated_at |}.

Definition period (opened_at : Z) (closed_at : option Z)
    (total_spent : option float) : StatusChange.t :=
  {| StatusChange.opened_at := ValidDate opened_at;
     StatusChange.closed_at := ValidDate <$> closed_at;
     StatusChange.flow_volume := 1;
     StatusChange.total_spent := total_spent |}.

(** The tap after the refused close, opened again at time 60. *)
Definition tap_reopened : DispenserManager :=
  exec_all EXAMPLE_PRICE
    [ChangeDispenserStatus "tap" OPEN (ValidDate 60)] tap_close_refused.

(** ** The outcomes of a status change *)

Section Outcomes.

Variable PRICE_PER_LITRE : float.

(** The dispenser at position [i] after the assignments to its [state] and
    [updated_at]. *)
Definition assigned (d : Dispenser.t) (state : string) (updatedAt : Date)
    : Dispenser.t :=
  {| Dispenser.id := Dispenser.id d;
     Dispenser.flow_volume := Dispenser.flow_volume d;
     Dispenser.state := state;
     Dispenser.updated_at := updatedAt |}.

(** The period an open request pushes. *)
Definition opened_period (d : Dispenser.t) (updatedAt : Date) : StatusChange.t :=
  {| StatusChange.opened_at := updatedAt;
     StatusChange.closed_at := None;
     StatusChange.flow_volume := Dispenser.flow_volume d;
     StatusChange.total_spent := None |}.

(** Every way [changeDispenserStatus id state updatedAt] can complete on a
    store [this], with the store it leaves: the four checks in their order,
    then the open branch (no usage array yet, date order refused, period
    pushed) and the close branch (no usage array, empty usage array, date
    order refused, last period closed and its total added). *)
Inductive status_outcome (this : DispenserManager) (id state : string)
    (updatedAt : Date) : DispenserManager → Completion StatusResult → Prop :=
  | outcome_not_found :
      find_dispenser id (dispensers this) = None →
      status_outcome this id state updatedAt
        this (Throw (Error DISPENSER_NOT_FOUND))
  | outcome_invalid_status i d :
      find_dispenser id (dispensers this) = Some (i, d) →
      state ≠ OPEN → state ≠ CLOSE →
      status_outcome this id state updatedAt
        this (Throw (Error INVALID_DISPENSER_STATUS))
  | outcome_invalid_date i d :
      find_dispenser id (dispensers this) = Some (i, d) →
      state = OPEN ∨ state = CLOSE →
      updatedAt = InvalidDate →
      status_outcome this id state updatedAt
        this (Throw (Error INVALID_DATE_FORMAT))
  | outcome_same_state i d t :
      find_dispenser id (dispensers this) = Some (i, d) →
      state = OPEN ∨ state = CLOSE →
      updatedAt = ValidDate t →
      Dispenser.state d = state →
      status_outcome this id state updatedAt
        this (Return (Failure DISPENSER_ALREADY_IN_DESIRED_STATE))
  | outcome_first_open i d t :
      find_dispenser id (dispensers this) = Some (i, d) →
      state = OPEN → updatedAt = ValidDate t →
      Dispenser.state d ≠ OPEN →
      statusChanges this !! id = None →
      status_outcome this id state updatedAt
        {| dispensers := <[i := assigned d OPEN updatedAt]> (dispensers this);
           statusChanges :=
             <[id := [opened_period d updatedAt]]> (statusChanges this);
           totalSpentPerDispenser := totalSpentPerDispenser this |}
        (Return (Success (assigned d OPEN updatedAt)))
  | outcome_open_refused i d t l p :
      find_dispenser id (dispensers this) = Some (i, d) →
      state = OPEN → updatedAt = ValidDate t →
      Dispenser.state d ≠ OPEN →
      statusChanges this !! id = Some l →
      last l = Some p →
      DateOps.leb updatedAt (DateOps.new_Date (StatusChange.closed_at p)) = true →
      status_outcome this id state updatedAt
        {| dispensers := <[i := assigned d OPEN updatedAt]> (dispensers this);
           statusChanges := statusChanges this;
           totalSpentPerDispenser := totalSpentPerDispenser this |}
        (Throw (Error INVALID_DATE_ORDER))
  | outcome_open_pushed i d t l :
      find_dispenser id (dispensers this) = Some (i, d) →
      state = OPEN → updatedAt = ValidDate t →
      Dispenser.state d ≠ OPEN →
      statusChanges this !! id = Some l →
      (∀ p, last l = Some p →
            DateOps.leb updatedAt (DateOps.new_Date (StatusChange.closed_at p))
            = false) →
      status_outcome this id state updatedAt
        {| dispensers := <[i := assigned d OPEN updatedAt]> (dispensers this);
           statusChanges :=
             <[id := l ++ [opened_period d updatedAt]]> (statusChanges this);
           totalSpentPerDispenser := totalSpentPerDispenser this |}
        (Return (Success (assigned d OPEN updatedAt)))
  | outcome_close_nothing i d t :
      find_dispenser id (dispensers this) = Some (i, d) →
      state = CLOSE → updatedAt = ValidDate t →
      Dispenser.state d ≠ CLOSE →
      statusChanges this !! id = None →
      status_outcome this id state updatedAt
        {| dispensers := <[i := assigned d CLOSE updatedAt]> (dispensers this);
           statusChanges := statusChanges this;
           totalSpentPerDispenser := totalSpentPerDispenser this |}
        (Return (Success (assigned d CLOSE updatedAt)))
  | outcome_close_empty i d t :
      find_dispenser id (dispensers this) = Some (i, d) →
      state = CLOSE → updatedAt = ValidDate t →
      Dispenser.state d ≠ CLOSE →
      statusChanges this !! id = Some [] →
      status_outcome this id state updatedAt
        {| dispensers := <[i := assigned d CLOSE updatedAt]> (dispensers this);
           statusChanges := statusChanges this;
           totalSpentPerDispenser := totalSpentPerDispenser this |}
        (Throw TypeError)
  | outcome_close_refused i d t l p :
      find_dispenser id (dispensers this) = Some (i, d) →
      state = CLOSE → updatedAt = ValidDate t →
      Dispenser.state d ≠ CLOSE →
      statusChanges this !! id = Some (l ++ [p]) →
      DateOps.leb updatedAt (StatusChange.opened_at p) = true →
      status_outcome this id state updatedAt
        {| dispensers := <[i := assigned d CLOSE updatedAt]> (dispensers this);
           statusChanges := statusChanges this;
           totalSpentPerDispenser := totalSpentPerDispenser this |}
        (Throw (Error INVALID_DATE_ORDER))
  | outcome_closed i d t l p :
      find_dispenser id (dispensers this) = Some (i, d) →
      state = CLOSE → updatedAt = ValidDate t →
      Dispenser.state d ≠ CLOSE →
      statusChanges this !! id = Some (l ++ [p]) →
      DateOps.leb updatedAt (StatusChange.opened_at p) = false →
      let total_spent :=
        calculateTotalSpent PRICE_PER_LITRE (StatusChange.opened_at p) updatedAt
          (StatusChange.flow_volume p) in
      status_outcome this id state updatedAt
        {| dispensers := <[i := assigned d CLOSE updatedAt]> (dispensers this);
           statusChanges :=
             <[id := l ++ [close_period updatedAt total_spent p]]>
               (statusChanges this);
           totalSpentPerDispenser :=
             <[id := PrimFloat.add
                       (Number.or_zero (totalSpentPerDispenser this !! id))
                       total_spent]>
               (totalSpentPerDispenser this) |}
        (Return (Success (assigned d CLOSE updatedAt))).

End Outcomes.

(** ** What is stated about reachable stores *)

(** A dispenser as the manager makes and keeps it: in one of the two states,
    with a flow volume that is not [<= 0], and with a valid [updated_at]. *)
Definition dispenser_ok (d : Dispenser.t) : Prop :=
  (Dispenser.state d = OPEN ∨ Dispenser.state d = CLOSE) ∧
  PrimFloat.leb (Dispenser.flow_volume d) 0 = false ∧
  DateOps.parse_isNaN (Dispenser.updated_at d) = false.

(** A usage period of a dispenser of flow volume [flow_volume]: it carries
    that flow volume, a valid [opened_at] and, when closed, a valid
    [closed_at] strictly after it. *)
Definition period_ok (flow_volume : float) (p : StatusChange.t) : Prop :=
  StatusChange.flow_volume p = flow_volume ∧
  ∃ o, StatusChange.opened_at p = ValidDate o ∧
       match StatusChange.closed_at p with
       | Some c => ∃ c', c = ValidDate c' ∧ o < c'
       | None => True
       end.

(** The fields of a period that a spending query never assigns. *)
Definition period_times (p : StatusChange.t) : Date * option Date * float :=
  (StatusChange.opened_at p, StatusChange.closed_at p, StatusChange.flow_volume p).

(** The id a call is about. *)
Definition call_id (c : Call) : string :=
  match c with
  | CreateDispenser uuid _ _ => uuid
  | ChangeDispenserStatus id _ _ => id
  | GetSpending _ id => id
  end.

(** The last period of a usage array is open. *)
Definition last_open (l : option (list StatusChange.t)) : Prop :=
  ∃ l0 p, l = Some (l0 ++ [p]) ∧ StatusChange.closed_at p = None.

(** What the manager keeps true of its three containers: every dispenser is
    as [dispenser_ok] says; every usage array is kept under the id of a
    dispenser, is not empty, and holds periods of that dispenser's flow
    volume with valid, ordered timestamps; and a running total is kept only
    where there is a usage array. *)
Definition store_ok (this : DispenserManager) : Prop :=
  Forall dispenser_ok (dispensers this) ∧
  (∀ id l, statusChanges this !! id = Some l →
     l ≠ [] ∧
     ∃ i d, find_dispenser id (dispensers this) = Some (i, d) ∧
            Forall (period_ok (Dispenser.flow_volume d)) l) ∧
  (∀ id x, totalSpentPerDispenser this !! id = Some x →
     is_Some (statusChanges this !! id)).

(** Every id that finds a dispenser in [l] finds one in [l'], at the same
    position and with the same flow volume. *)
Definition finds_kept (l l' : list Dispenser.t) : Prop :=
  ∀ id i d, find_dispenser id l = Some (i, d) →
    ∃ d', find_dispenser id l' = Some (i, d') ∧
          Dispenser.flow_volume d' = Dispenser.flow_volume d.

(** ** Runs without a refused status change *)

Section Unrefused.

Variable PRICE_PER_LITRE : float.

(** The call is a status change that throws the date-order error. *)
Definition refused (c : Call) (this : DispenserManager) : Prop :=
  match c with
  | ChangeDispenserStatus id state updatedAt =>
      snd (changeDispenserStatus PRICE_PER_LITRE id state updatedAt this)
      = Throw (Error INVALID_DATE_ORDER)
  | _ => False
  end.

(** The stores reached by calls none of which was refused. *)
Inductive reachable_unrefused : DispenserManager → Prop :=
  | unrefused_new : reachable_unrefused new_DispenserManager
  | unrefused_exec c this :
      reachable_unrefused this →
      ¬ refused c this →
      reachable_unrefused (exec PRICE_PER_LITRE c this).

End Unrefused.

(** A dispenser is open exactly when the last period of its usage array is
    open. *)
Definition state_agrees (this : DispenserManager) : Prop :=
  ∀ id i d, find_dispenser id (dispensers this) = Some (i, d) →
    (Dispenser.state d = OPEN ↔ last_open (statusChanges this !! id)).

(** Every usage array is strictly time-ordered and open in its last period
    at most. *)
Definition usage_ordered (this : DispenserManager) : Prop :=
  ∀ id l, statusChanges this !! id = Some l →
    time_ordered l = true ∧ open_only_last l = true.

(** ** The routes *)

(** [src/routes/api.js]: the handlers that call the manager.  A handler reads
    fields of the parsed JSON body and the id of the path, calls one method
    of the one manager the module holds, and answers with a status code and
    a body. *)

(** A field of a parsed JSON body: a primitive value, [undefined] when the
    field is absent, or an object or array, of which the handlers use no
    more than the string it converts to. *)
Inductive BodyValue : Type :=
  | Primitive (v : JSValue)
  | Structured (primitive : string).

(** The messages of [src/constants/messages.js] that only the routes use,
    beside the manager's. *)
Inductive ApiMessage : Type :=
  | ManagerMessage (message : Message)
  | API_WORKING
  | FLOW_VOLUME_REQUIRED
  | FLOW_VOLUME_MUST_BE_NUMBER
  | FLOW_VOLUME_POSITIVE
  | INTERNAL_SERVER_ERROR
  | STATUS_UPDATED_AT_FIELDS_REQUIRED.

(** What a handler passes to [res.json], or nothing for [res.send()]. *)
Inductive ResponseBody : Type :=
  | JsonDispenser (id : string) (flow_volume : float)
  | JsonError (error : ApiMessage)
  | JsonMessage (message : ApiMessage)
  | JsonSpending (spending : Spending)
  | NoBody.

Record Response : Type := mkResponse {
  status : nat;
  body : ResponseBody
}.

(** A handler: from the store of the module's manager to that store after
    the request and the response sent.  A handler catches what the manager
    throws, so it always responds. *)
Definition Handler : Type := DispenserManager → DispenserManager * Response.

Module Routes.

(** [!v] is false. *)
Definition truthy (v : BodyValue) : bool :=
  match v with
  | Primitive VUndefined | Primitive VNull => false
  | Primitive (VBoolean b) => b
  | Primitive (VNumber x) => negb (PrimFloat.is_nan x || PrimFloat.is_zero x)
  | Primitive (VString s) => negb (bool_decide (s = ""))
  | Structured _ => true
  end.

(** The time value of a Number: none when it is not finite or beyond
    8.64e15 in magnitude, and its integral part otherwise. *)
Definition time_clip (x : float) : Date :=
  match Prim2SF x with
  | S754_zero _ => ValidDate 0
  | S754_finite s m e =>
      if PrimFloat.ltb 8640000000000000 (PrimFloat.abs x) then InvalidDate
      else
        let z := match e with
                 | Zneg k => Zpos m / 2 ^ Zpos k
                 | _ => Zpos m * 2 ^ e
                 end in
        ValidDate (if s then - z else z)
  | S754_infinity _ | S754_nan => InvalidDate
  end.

Section Handlers.

Variable PRICE_PER_LITRE : float.

(** [Date.parse] on a string: the engine's parser, taken as it is. *)
Variable Date_parse : string → Date.

(** [new Date(value)] for a field of the body. *)
Definition new_Date (value : BodyValue) : Date :=
  match value with
  | Primitive VUndefined => InvalidDate
  | Primitive VNull => ValidDate 0
  | Primitive (VBoolean b) => ValidDate (if b then 1 else 0)
  | Primitive (VNumber x) => time_clip x
  | Primitive (VString s) => Date_parse s
  | Structured s => Date_parse s
  end.

(** [try { ... } catch (error) { ... }] around a call of the manager. *)
Definition try_catch {A} (c : M A) (then_ : A → Response)
    (catch : Exception → Response) : Handler :=
  λ this,
    match c this with
    | (this', Return a) => (this', then_ a)
    | (this', Throw e) => (this', catch e)
    end.

Definition respond (status : nat) (body : ResponseBody) : Handler :=
  λ this, (this, {| status := status; body := body |}).

(** [router.get('/')] *)
Definition get_root : Handler :=
  respond 200 (JsonMessage API_WORKING).

(** [router.post('/dispenser')]; [uuid] and [now] are what the manager
    draws when it is called. *)
Definition post_dispenser (uuid : string) (now : Z) (flow_volume : BodyValue)
    : Handler :=
  if negb (truthy flow_volume)
  then respond 400 (JsonError FLOW_VOLUME_REQUIRED)
  else
    match flow_volume with
    | Primitive (VNumber x) =>
        if PrimFloat.leb x 0
        then respond 400 (JsonError FLOW_VOLUME_POSITIVE)
        else
          try_catch (createDispenser uuid now (VNumber x))
            (λ dispenser,
               {| status := 200;
                  body := JsonDispenser (Dispenser.id dispenser)
                            (Dispenser.flow_volume dispenser) |})
            (λ error,
               match error with
               | Error INVALID_FLOW =>
                   {| status := 400;
                      body := JsonError (ManagerMessage INVALID_FLOW) |}
               | _ =>
                   {| status := 500;
                      body := JsonError INTERNAL_SERVER_ERROR |}
               end)
    | _ => respond 400 (JsonError FLOW_VOLUME_MUST_BE_NUMBER)
    end.

(** [changeDispenserStatus] called with the [status] field as it came: a
    string is the state requested; any other value is neither "open" nor
    "close", so that the method gets as far as its second check. *)
Definition changeDispenserStatus_of (id : string) (status : BodyValue)
    (updatedAt : Date) : M StatusResult :=
  match status with
  | Primitive (VString state) =>
      changeDispenserStatus PRICE_PER_LITRE id state updatedAt
  | _ =>
      this ←' get ;;
      match find_dispenser id (dispensers this) with
      | None => throw (Error DISPENSER_NOT_FOUND)
      | Some _ => throw (Error INVALID_DISPENSER_STATUS)
      end
  end.

(** [router.put('/dispenser/:id/status')] *)
Definition put_status (id : string) (status_ updated_at : BodyValue)
    : Handler :=
  if negb (truthy status_) || negb (truthy updated_at)
  then respond 400 (JsonError STATUS_UPDATED_AT_FIELDS_REQUIRED)
  else
    try_catch (changeDispenserStatus_of id status_ (new_Date updated_at))
      (λ result,
         match result with
         | Failure _ =>
             {| status := 409;
                body := JsonMessage
                          (ManagerMessage DISPENSER_ALREADY_IN_DESIRED_STATE) |}
         | Success _ => {| status := 202; body := NoBody |}
         end)
      (λ error,
         match error with
         | Error INVALID_DISPENSER_STATUS =>
             {| status := 400;
                body := JsonError (ManagerMessage INVALID_DISPENSER_STATUS) |}
         | Error INVALID_DATE_FORMAT =>
             {| status := 400;
                body := JsonError (ManagerMessage INVALID_DATE_FORMAT) |}
         | Error DISPENSER_NOT_FOUND =>
             {| status := 404;
                body := JsonError (ManagerMessage DISPENSER_NOT_FOUND) |}
         | _ => {| status := 500; body := JsonError INTERNAL_SERVER_ERROR |}
         end).

(** [router.get('/dispenser/:id/spending')]; [now] is what the manager
    reads the clock as. *)
Definition get_spending (now : Z) (id : string) : Handler :=
  try_catch (getSpending PRICE_PER_LITRE now id)
    (λ spending, {| status := 200; body := JsonSpending spending |})
    (λ error,
       match error with
       | Error DISPENSER_NOT_FOUND =>
           {| status := 404;
              body := JsonError (ManagerMessage DISPENSER_NOT_FOUND) |}
       | Error INVALID_DISPENSER_STATUS =>
           {| status := 400;
              body := JsonError (ManagerMessage INVALID_DISPENSER_STATUS) |}
       | _ => {| status := 500; body := JsonError INTERNAL_SERVER_ERROR |}
       end).

(** A request to one of the routes, with what the manager draws while it is
    served. *)
Inductive Request : Type :=
  | GetRoot
  | PostDispenser (uuid : string) (now : Z) (flow_volume : BodyValue)
  | PutStatus (id : string) (status_ updated_at : BodyValue)
  | GetSpendingOf (now : Z) (id : string).

Definition serve (req : Request) : Handler :=
  match req with
  | GetRoot => get_root
  | PostDispenser uuid now flow_volume => post_dispenser uuid now flow_volume
  | PutStatus id status_ updated_at => put_status id status_ updated_at
  | GetSpendingOf now id => get_spending now id
  end.

(** The stores of the module's manager after any requests. *)
Inductive served : DispenserManager → Prop :=
  | served_new : served new_DispenserManager
  | served_request req this : served this → served (fst (serve req this)).

End Handlers.

End Routes.

(** ** More stores for the concrete runs *)

(** A parser that reads no string as a date; the requests of the runs below
    carry their dates as time values. *)
Definition EXAMPLE_PARSE : string → Date := λ _, InvalidDate.

(** The request that creates the tap, and the requests that open and close
    it. *)
Definition post_tap : Routes.Request :=
  Routes.PostDispenser "tap" 0 (Primitive (VNumber 1)).

Definition put_tap (state : string) (updated_at : float) : Routes.Request :=
  Routes.PutStatus "tap" (Primitive (VString state))
    (Primitive (VNumber updated_at)).

(** * Properties *)

Arguments DateOps.leb : simpl never.
Arguments calculateTotalSpent : simpl never.
Arguments Number.or_zero : simpl never.

Section Properties.

Variable PRICE_PER_LITRE : float.

Local Abbreviation calculateTotalSpent := (calculateTotalSpent PRICE_PER_LITRE).
Local Abbreviation handle_close := (handle_close PRICE_PER_LITRE).
Local Abbreviation changeDispenserStatus := (changeDispenserStatus PRICE_PER_LITRE).
Local Abbreviation getSpending := (getSpending PRICE_PER_LITRE).
Local Abbreviation exec := (exec PRICE_PER_LITRE).
Local Abbreviation exec_all := (exec_all PRICE_PER_LITRE).
Local Abbreviation reachable := (reachable PRICE_PER_LITRE).
Local Abbreviation ledger_step := (ledger_step PRICE_PER_LITRE).

(** ** Rounding to hundredths *)

(** [nearest_hundredths] rounds half up: for [x = m / 2^k] the result [n]
    satisfies [n <= 100 * x + 1/2 < n + 1]; for [x = m * 2^e] with [e >= 0]
    it is [100 * x] itself. *)
Lemma nearest_hundredths_half_up m e :
  match e with
  | Zneg k =>
      2 ^ (Zpos k + 1) * Number.nearest_hundredths m e
      ≤ 200 * Zpos m + 2 ^ Zpos k
      < 2 ^ (Zpos k + 1) * (Number.nearest_hundredths m e + 1)
  | _ => Number.nearest_hundredths m e = 100 * Zpos m * 2 ^ e
  end.
Proof.
  destruct e as [|k|k]; try reflexivity.
  unfold Number.nearest_hundredths.
  assert (0 < 2 ^ (Z.pos k + 1)) as Hpos by (apply Z.pow_pos_nonneg; lia).
  split.
  - by apply Z.mul_div_le.
  - rewrite Z.add_1_r. by apply Z.mul_succ_div_gt.
Qed.

(** The Number nearest to 1.005 lies below it and rounds down; 0.125 is a
    tie and rounds up, away from zero for a negative value. *)
Example toFixed2_below_half : Number.toFixed2 (1005 / 1000) = 1%float.
Proof. reflexivity. Qed.

Example toFixed2_tie : Number.toFixed2 0.125 = (13 / 100)%float.
Proof. reflexivity. Qed.

Example toFixed2_negative_tie : Number.toFixed2 (-0.125) = (-13 / 100)%float.
Proof. reflexivity. Qed.

(** ** Lookup and in-place update *)

Lemma find_dispenser_Some id l i d :
  find_dispenser id l = Some (i, d) →
  l !! i = Some d ∧ Dispenser.id d = id.
Proof.
  unfold find_dispenser. intros H.
  apply list_find_Some in H. tauto.
Qed.

Lemma find_dispenser_None id l :
  find_dispenser id l = None ↔ ¬ ∃ d, d ∈ l ∧ Dispenser.id d = id.
Proof.
  unfold find_dispenser. rewrite list_find_None, Forall_forall. split.
  - intros H (d & Hd & Hid). exact (H d Hd Hid).
  - intros H d Hd Hid. apply H. eauto.
Qed.

(** Assigning to fields other than [id] of the dispenser found leaves it the
    one found. *)
Lemma find_dispenser_insert id l i d d' :
  find_dispenser id l = Some (i, d) →
  Dispenser.id d' = id →
  find_dispenser id (<[i := d']> l) = Some (i, d').
Proof.
  unfold find_dispenser. intros H Hid.
  apply list_find_Some in H as (Hi & _ & Hlt).
  apply list_find_Some. split; [|split].
  - apply list_lookup_insert_eq. eapply lookup_lt_Some, Hi.
  - exact Hid.
  - intros j y Hj Hji. rewrite list_lookup_insert_ne in Hj by lia. eauto.
Qed.

Lemma find_dispenser_insert_ne (l : list Dispenser.t) i d' d0 :
  l !! i = Some d0 →
  Dispenser.id d' = Dispenser.id d0 →
  ∀ id', is_Some (find_dispenser id' l) →
         is_Some (find_dispenser id' (<[i := d']> l)).
Proof.
  intros Hi Hid id' [[k e] Hk].
  apply find_dispenser_Some in Hk as Hke. destruct Hke as [Hke Hide].
  destruct (find_dispenser id' (<[i := d']> l)) as [r|] eqn:E; [eauto|].
  exfalso. apply find_dispenser_None in E. apply E.
  destruct (decide (i = k)) as [->|Hne].
  - exists d'. split.
    + apply list_elem_of_lookup. exists k. apply list_lookup_insert_eq.
      eapply lookup_lt_Some, Hke.
    + congruence.
  - exists e. split; [|done].
    apply list_elem_of_lookup. exists k. by rewrite list_lookup_insert_ne.
Qed.

Lemma find_dispenser_app id l l' :
  is_Some (find_dispenser id l) → is_Some (find_dispenser id (l ++ l')).
Proof.
  intros [[k e] Hk]. exists (k, e). unfold find_dispenser in *.
  by apply list_find_app_l.
Qed.

Lemma alter_last_snoc f l p : alter_last f (l ++ [p]) = l ++ [f p].
Proof.
  unfold alter_last. rewrite length_app, Nat.add_1_r. simpl.
  rewrite alter_app_r_alt by lia. by rewrite Nat.sub_diag.
Qed.

(** Unfolding of the monad in a goal or a hypothesis. *)
Ltac unfold_M :=
  unfold bind, get, modify, ret, throw in *; simpl in *.

(** ** Same state requested *)


(** ** A failed date-order check keeps the assignments made before it *)

(** C4.  When [changeDispenserStatus] throws the date-order error, the call
    had found the dispenser in the other state, with a valid requested state
    and a valid timestamp; afterwards the dispenser found under [id] has
    the requested [state] and the supplied timestamp as [updated_at], and no
    usage array and no running total has changed. *)
Theorem changeDispenserStatus_date_order_keeps_assignment
    this this' id state updatedAt :
  changeDispenserStatus id state updatedAt this
  = (this', Throw (Error INVALID_DATE_ORDER)) →
  ∃ i d,
    find_dispenser id (dispensers this) = Some (i, d) ∧
    (state = OPEN ∨ state = CLOSE) ∧
    DateOps.parse_isNaN updatedAt = false ∧
    Dispenser.state d ≠ state ∧
    find_dispenser id (dispensers this')
    = Some (i, {| Dispenser.id := Dispenser.id d;
                  Dispenser.flow_volume := Dispenser.flow_volume d;
                  Dispenser.state := state;
                  Dispenser.updated_at := updatedAt |}) ∧
    statusChanges this' = statusChanges this ∧
    totalSpentPerDispenser this' = totalSpentPerDispenser this.
Proof.
  unfold changeDispenserStatus. unfold_M.
  destruct (find_dispenser id (dispensers this)) as [[i d]|] eqn:Hfind;
    [|intros [= _ ?]; done].
  destruct (bool_decide (state ≠ OPEN) && bool_decide (state ≠ CLOSE)) eqn:Hst;
    [intros [= _ ?]; done|].
  destruct (DateOps.parse_isNaN updatedAt) eqn:Hdate; [intros [= _ ?]; done|].
  destruct (bool_decide (Dispenser.state d = state)) eqn:Hsame;
    [intros [= _ ?]; done|].
  apply bool_decide_eq_false in Hsame.
  assert (state = OPEN ∨ state = CLOSE) as Hstate.
  { apply andb_false_iff in Hst as [H|H]; apply bool_decide_eq_false in H;
      destruct (decide (state = OPEN)), (decide (state = CLOSE)); tauto. }
  intros H. exists i, d.
  assert (dispensers this' = <[i := {| Dispenser.id := Dispenser.id d;
                  Dispenser.flow_volume := Dispenser.flow_volume d;
                  Dispenser.state := state;
                  Dispenser.updated_at := updatedAt |}]> (dispensers this)
          ∧ statusChanges this' = statusChanges this
          ∧ totalSpentPerDispenser this' = totalSpentPerDispenser this)
    as (Hd & Hs & Ht).
  { unfold handle_open, handle_close, updateTotalSpentPerDispenser in H.
    unfold_M.
    repeat case_match; simplify_eq; done. }
  repeat split; try done.
  rewrite Hd. eapply find_dispenser_insert; [done|].
  by apply find_dispenser_Some in Hfind as [_ ?].
Qed.

(** ** Date order on open and close *)


Lemma createDispenser_store uuid now flow_volume this :
  statusChanges (fst (createDispenser uuid now flow_volume this)) = statusChanges this
  ∧ totalSpentPerDispenser (fst (createDispenser uuid now flow_volume this))
    = totalSpentPerDispenser this
  ∧ dispensers_step (dispensers this)
      (dispensers (fst (createDispenser uuid now flow_volume this))).
Proof.
  unfold createDispenser. unfold_M.
  repeat case_match; simpl; repeat split; constructor.
Qed.

Lemma changeDispenserStatus_dispensers id state updatedAt this :
  dispensers_step (dispensers this)
    (dispensers (fst (changeDispenserStatus id state updatedAt this))).
Proof.
  unfold changeDispenserStatus, handle_open, handle_close,
    updateTotalSpentPerDispenser. unfold_M.
  destruct (find_dispenser id (dispensers this)) as [[i d]|] eqn:Hfind;
    [|constructor].
  apply find_dispenser_Some in Hfind as [Hi _].
  repeat case_match; simpl; simplify_eq; try constructor; done.
Qed.

Lemma changeDispenserStatus_ledger id state updatedAt this :
  ledger_step this
    (statusChanges (fst (changeDispenserStatus id state updatedAt this))).
Proof.
  unfold changeDispenserStatus, handle_open, handle_close,
    updateTotalSpentPerDispenser. unfold_M.
  destruct (find_dispenser id (dispensers this)) as [[i d]|] eqn:Hfind;
    [|apply ledger_same].
  destruct (bool_decide (state ≠ OPEN) && bool_decide (state ≠ CLOSE));
    [apply ledger_same|].
  destruct (DateOps.parse_isNaN updatedAt); [apply ledger_same|].
  destruct (bool_decide (Dispenser.state d = state)); [apply ledger_same|].
  destruct (bool_decide (state = OPEN)).
  - destruct (statusChanges this !! id) as [l|] eqn:Hl; simpl.
    + destruct (last l) as [p|] eqn:Hp; simpl.
      * destruct (DateOps.leb _ _); simpl; [apply ledger_same|].
        pose proof (ledger_push PRICE_PER_LITRE this id
          {| StatusChange.opened_at := updatedAt;
             StatusChange.closed_at := None;
             StatusChange.flow_volume := Dispenser.flow_volume d;
             StatusChange.total_spent := None |}) as H.
        rewrite Hl in H. apply H; eauto.
      * pose proof (ledger_push PRICE_PER_LITRE this id
          {| StatusChange.opened_at := updatedAt;
             StatusChange.closed_at := None;
             StatusChange.flow_volume := Dispenser.flow_volume d;
             StatusChange.total_spent := None |}) as H.
        rewrite Hl in H. apply H; eauto.
    + pose proof (ledger_push PRICE_PER_LITRE this id
          {| StatusChange.opened_at := updatedAt;
             StatusChange.closed_at := None;
             StatusChange.flow_volume := Dispenser.flow_volume d;
             StatusChange.total_spent := None |}) as H.
      rewrite Hl in H. apply H; eauto.
  - destruct (bool_decide (state = CLOSE)); [|simpl; apply ledger_same].
    destruct (statusChanges this !! id) as [l|] eqn:Hl; simpl; [|apply ledger_same].
    destruct (last l) as [p|] eqn:Hp; simpl; [|apply ledger_same].
    destruct (DateOps.leb _ _); simpl; [apply ledger_same|].
    apply last_Some in Hp as [l0 ->]. rewrite alter_last_snoc.
    by apply ledger_close.
Qed.

Lemma getSpending_dispensers now id this :
  dispensers (fst (getSpending now id this)) = dispensers this.
Proof.
  unfold getSpending, updateTotalSpentPerDispenser. unfold_M.
  repeat case_match; done.
Qed.

Lemma getSpending_ledger now id this :
  ledger_step this (statusChanges (fst (getSpending now id this))).
Proof.
  unfold getSpending, updateTotalSpentPerDispenser. unfold_M.
  destruct (find_dispenser id (dispensers this)) as [[i d]|];
    [|apply ledger_same].
  destruct (statusChanges this !! id) as [l|] eqn:Hl; [|apply ledger_same].
  destruct (last l) as [p|] eqn:Hp; [|apply ledger_same].
  destruct (StatusChange.closed_at p) eqn:Hc; [apply ledger_same|]. simpl.
  apply last_Some in Hp as [l0 ->]. rewrite alter_last_snoc.
  by apply ledger_estimate.
Qed.

Lemma exec_dispensers c this :
  dispensers_step (dispensers this) (dispensers (exec c this)).
Proof.
  destruct c; simpl.
  - apply createDispenser_store.
  - apply changeDispenserStatus_dispensers.
  - rewrite getSpending_dispensers. constructor.
Qed.

Lemma exec_ledger c this : ledger_step this (statusChanges (exec c this)).
Proof.
  destruct c; simpl.
  - destruct (createDispenser_store uuid now flow_volume this) as (-> & _).
    constructor.
  - apply changeDispenserStatus_ledger.
  - apply getSpending_ledger.
Qed.

(** ** Invariants of reachable stores *)

Lemma dispensers_step_find l l' id :
  dispensers_step l l' →
  is_Some (find_dispenser id l) → is_Some (find_dispenser id l').
Proof.
  intros [|d|i d state updatedAt Hi] H.
  - done.
  - by apply find_dispenser_app.
  - by eapply find_dispenser_insert_ne.
Qed.

(** Only existing dispensers have a usage array. *)
Lemma reachable_ledger_keys this id l :
  reachable this →
  statusChanges this !! id = Some l →
  is_Some (find_dispenser id (dispensers this)).
Proof.
  intros Hr. revert id l.
  induction Hr as [|c this Hr IH]; intros id l Hl.
  - simpl in Hl. by rewrite lookup_empty in Hl.
  - apply (dispensers_step_find (dispensers this)); [apply exec_dispensers|].
    destruct (exec_ledger c this) as [|id' p Hf _ _|id' l0 p t Hl0|id' l0 p ts Hl0 _].
    + eauto.
    + destruct (decide (id' = id)) as [->|Hne]; [done|].
      rewrite lookup_insert_ne in Hl by done. eauto.
    + destruct (decide (id' = id)) as [->|Hne]; [eauto|].
      rewrite lookup_insert_ne in Hl by done. eauto.
    + destruct (decide (id' = id)) as [->|Hne]; [eauto|].
      rewrite lookup_insert_ne in Hl by done. eauto.
Qed.

(** A usage array is never empty. *)
Lemma reachable_ledger_nonempty this id l :
  reachable this →
  statusChanges this !! id = Some l →
  l ≠ [].
Proof.
  intros Hr. revert id l.
  induction Hr as [|c this Hr IH]; intros id l Hl.
  - simpl in Hl. by rewrite lookup_empty in Hl.
  - destruct (exec_ledger c this) as [|id' p _ _ _|id' l0 p t _|id' l0 p ts _ _].
    + eauto.
    + destruct (decide (id' = id)) as [->|Hne].
      * rewrite lookup_insert_eq in Hl. simplify_eq. by destruct (default _ _).
      * rewrite lookup_insert_ne in Hl by done. eauto.
    + destruct (decide (id' = id)) as [->|Hne].
      * rewrite lookup_insert_eq in Hl. simplify_eq. by destruct l0.
      * rewrite lookup_insert_ne in Hl by done. eauto.
    + destruct (decide (id' = id)) as [->|Hne].
      * rewrite lookup_insert_eq in Hl. simplify_eq. by destruct l0.
      * rewrite lookup_insert_ne in Hl by done. eauto.
Qed.

(** ** The total of a closed period *)


(** ** Calls only append, and touch only the last period *)

Lemma usage_extends_refl l : usage_extends l l.
Proof. split; [done|]. intros i p Hp. exists p. eauto. Qed.

Lemma usage_extends_trans l1 l2 l3 :
  usage_extends l1 l2 → usage_extends l2 l3 → usage_extends l1 l3.
Proof.
  intros [Hlen12 H12] [Hlen23 H23]. split; [lia|].
  intros i p Hp.
  destruct (H12 i p Hp) as (p' & Hp' & Ho & Hf & Heq).
  destruct (H23 i p' Hp') as (p'' & Hp'' & Ho' & Hf' & Heq').
  exists p''. repeat split; [done|congruence|congruence|].
  intros Hi. rewrite Heq' by lia. by apply Heq.
Qed.

Lemma usage_extends_snoc l p : usage_extends l (l ++ [p]).
Proof.
  split; [rewrite length_app; lia|].
  intros i q Hq. exists q. rewrite lookup_app_l by (by eapply lookup_lt_Some).
  eauto.
Qed.

Lemma usage_extends_last l p p' :
  StatusChange.opened_at p' = StatusChange.opened_at p →
  StatusChange.flow_volume p' = StatusChange.flow_volume p →
  usage_extends (l ++ [p]) (l ++ [p']).
Proof.
  intros Ho Hf. split; [by rewrite !length_app|].
  intros i q Hq.
  destruct (decide (i < length l)%nat) as [Hi|Hi].
  - rewrite lookup_app_l in Hq by done. exists q.
    rewrite lookup_app_l by done. eauto.
  - apply lookup_lt_Some in Hq as Hlt.
    rewrite length_app in Hlt. simpl in Hlt.
    assert (i = length l) as -> by lia.
    rewrite list_lookup_middle in Hq by done. simplify_eq.
    exists p'. rewrite list_lookup_middle by done.
    repeat split; [done|done|]. rewrite length_app. simpl. lia.
Qed.

Lemma store_extends_refl this : store_extends this this.
Proof.
  split; [eauto|]. intros id l Hl. exists l. eauto using usage_extends_refl.
Qed.

Lemma store_extends_trans s1 s2 s3 :
  store_extends s1 s2 → store_extends s2 s3 → store_extends s1 s3.
Proof.
  intros [Hd12 Hl12] [Hd23 Hl23]. split.
  - intros i d Hd.
    destruct (Hd12 i d Hd) as (d' & Hd' & ? & ?).
    destruct (Hd23 i d' Hd') as (d'' & Hd'' & ? & ?).
    exists d''. repeat split; [done|congruence|congruence].
  - intros id l Hl.
    destruct (Hl12 id l Hl) as (l' & Hl' & ?).
    destruct (Hl23 id l' Hl') as (l'' & Hl'' & ?).
    exists l''. eauto using usage_extends_trans.
Qed.

Lemma exec_extends c this : store_extends this (exec c this).
Proof.
  split.
  - intros i d Hd.
    destruct (exec_dispensers c this) as [|d0|j d0 state updatedAt Hj].
    + eauto.
    + exists d. rewrite lookup_app_l by (by eapply lookup_lt_Some). eauto.
    + destruct (decide (j = i)) as [->|Hne].
      * simplify_eq. eexists.
        split; [apply list_lookup_insert_eq; by eapply lookup_lt_Some|done].
      * exists d. by rewrite list_lookup_insert_ne.
  - intros id l Hl.
    destruct (exec_ledger c this) as [|id' p _ _ _|id' l0 p t Hl0|id' l0 p ts Hl0 _].
    + exists l. eauto using usage_extends_refl.
    + destruct (decide (id' = id)) as [->|Hne].
      * rewrite lookup_insert_eq, Hl. simpl. eauto using usage_extends_snoc.
      * rewrite lookup_insert_ne by done. eauto using usage_extends_refl.
    + destruct (decide (id' = id)) as [->|Hne].
      * rewrite lookup_insert_eq. simplify_eq.
        eexists. split; [done|]. by apply usage_extends_last.
      * rewrite lookup_insert_ne by done. eauto using usage_extends_refl.
    + destruct (decide (id' = id)) as [->|Hne].
      * rewrite lookup_insert_eq. simplify_eq.
        eexists. split; [done|]. by apply usage_extends_last.
      * rewrite lookup_insert_ne by done. eauto using usage_extends_refl.
Qed.

(** C10.  Whatever calls are made, one after the other, on whatever store:
    every dispenser is still in the array at its position with its [id] and
    [flow_volume]; every usage array still exists and is at least as long;
    each of its periods is still at its position with the [opened_at] and
    [flow_volume] it had; and each period that was not the last of its array
    is unchanged altogether. *)
Theorem calls_append_only cs this : store_extends this (exec_all cs this).
Proof.
  revert this. induction cs as [|c cs IH]; intros this.
  - apply store_extends_refl.
  - simpl. eapply store_extends_trans; [apply exec_extends|apply IH].
Qed.

(** ** Spending queries *)

(** C8.  [getSpending] throws the not-found error exactly when no dispenser
    of the array has the given id; and for a dispenser that exists and has
    no usage array (it was never opened) it returns amount 0 and an empty
    usages list, leaving the store as it was. *)
Theorem getSpending_not_found_or_never_opened this now id :
  (snd (getSpending now id this) = Throw (Error DISPENSER_NOT_FOUND)
   ↔ ¬ ∃ d, d ∈ dispensers this ∧ Dispenser.id d = id) ∧
  ((∃ d, d ∈ dispensers this ∧ Dispenser.id d = id) →
   statusChanges this !! id = None →
   getSpending now id this
   = (this, Return {| amount := 0; usages := [] |})).
Proof.
  rewrite <- find_dispenser_None.
  unfold getSpending, updateTotalSpentPerDispenser. unfold_M.
  destruct (find_dispenser id (dispensers this)) as [[i d]|] eqn:Hfind.
  - split.
    + split; [|done]. repeat case_match; simpl; done.
    + intros _ ->. done.
  - split; [done|]. intros Hex. by apply find_dispenser_None in Hfind.
Qed.

(** What [getSpending] does for a dispenser whose last period is open: the
    estimate is assigned to the period's [total_spent] and added to the
    stored running total, and the returned amount is that new total. *)
Lemma getSpending_open_period this now id i d l p :
  find_dispenser id (dispensers this) = Some (i, d) →
  statusChanges this !! id = Some (l ++ [p]) →
  StatusChange.closed_at p = None →
  let estimate :=
    calculateTotalSpent (StatusChange.opened_at p) (ValidDate now)
      (StatusChange.flow_volume p) in
  let total :=
    PrimFloat.add (Number.or_zero (totalSpentPerDispenser this !! id)) estimate in
  getSpending now id this
  = ({| dispensers := dispensers this;
        statusChanges :=
          <[id := l ++ [set_total_spent estimate p]]> (statusChanges this);
        totalSpentPerDispenser :=
          <[id := total]> (totalSpentPerDispenser this) |},
     Return {| amount := Number.or_zero (Some total);
               usages := l ++ [set_total_spent estimate p] |}).
Proof.
  intros Hfind Hl Hc. simpl.
  unfold getSpending, updateTotalSpentPerDispenser. unfold_M.
  rewrite Hfind, Hl, last_snoc, Hc. simpl.
  rewrite alter_last_snoc, lookup_insert_eq. done.
Qed.

(** What [getSpending] does for a dispenser whose last period is closed:
    nothing is assigned. *)
Lemma getSpending_closed_period this now id i d l p c :
  find_dispenser id (dispensers this) = Some (i, d) →
  statusChanges this !! id = Some (l ++ [p]) →
  StatusChange.closed_at p = Some c →
  getSpending now id this
  = (this,
     Return {| amount := Number.or_zero (totalSpentPerDispenser this !! id);
               usages := l ++ [p] |}).
Proof.
  intros Hfind Hl Hc.
  unfold getSpending. unfold_M.
  by rewrite Hfind, Hl, last_snoc, Hc.
Qed.

(** On a reachable store a spending query for an existing dispenser
    returns: the usage array it reads, when there is one, has a last
    element. *)
Lemma getSpending_returns this now id :
  reachable this →
  is_Some (find_dispenser id (dispensers this)) →
  ∃ r, snd (getSpending now id this) = Return r.
Proof.
  intros Hr [[i d] Hfind].
  destruct (statusChanges this !! id) as [l|] eqn:Hl.
  - pose proof (reachable_ledger_nonempty _ _ _ Hr Hl) as Hne.
    apply last_is_Some in Hne as [p Hp]. apply last_Some in Hp as [l0 ->].
    destruct (StatusChange.closed_at p) as [c|] eqn:Hc.
    + erewrite getSpending_closed_period by done. eauto.
    + eexists. pose proof (getSpending_open_period _ now _ _ _ _ _ Hfind Hl Hc) as H.
      simpl in H. rewrite H. reflexivity.
  - eexists. unfold getSpending. unfold_M. by rewrite Hfind, Hl.
Qed.

(** ** Open, close, query *)

Lemma createDispenser_Return uuid now flow_volume this this' d :
  createDispenser uuid now flow_volume this = (this', Return d) →
  ∃ x, flow_volume = VNumber x ∧ PrimFloat.leb x 0 = false ∧
    d = {| Dispenser.id := uuid; Dispenser.flow_volume := x;
           Dispenser.state := CLOSE; Dispenser.updated_at := ValidDate now |} ∧
    this' = set_dispensers (λ l, l ++ [d]) this.
Proof.
  unfold createDispenser. unfold_M. intros H.
  destruct flow_volume as [| |b|x|s]; try (by inversion H).
  destruct (PrimFloat.leb x 0) eqn:Hx; [by inversion H|].
  inversion H. subst. eauto.
Qed.

(** C7.  On a reachable store, create a dispenser under an id that no
    dispenser has yet; if opening it at [T0] succeeds and closing it at [T1]
    then succeeds, [getSpending] returns a usages list of exactly one period,
    opened at [T0], closed at [T1], with the dispenser's flow volume and
    with the total that [calculateTotalSpent] gives on [T0], [T1] and that
    flow volume. *)
Theorem open_close_getSpending this0 uuid now0 flow_volume d this1
    T0 d1 this2 T1 d2 this3 now :
  reachable this0 →
  find_dispenser uuid (dispensers this0) = None →
  createDispenser uuid now0 flow_volume this0 = (this1, Return d) →
  changeDispenserStatus uuid OPEN T0 this1 = (this2, Return (Success d1)) →
  changeDispenserStatus uuid CLOSE T1 this2 = (this3, Return (Success d2)) →
  ∃ amount,
    getSpending now uuid this3
    = (this3,
       Return {| amount := amount;
                 usages :=
                   [{| StatusChange.opened_at := T0;
                       StatusChange.closed_at := Some T1;
                       StatusChange.flow_volume := Dispenser.flow_volume d;
                       StatusChange.total_spent :=
                         Some (calculateTotalSpent T0 T1 (Dispenser.flow_volume d)) |}] |}).
Proof.
  intros Hr Hfresh Hcreate Hopen Hclose.
  apply createDispenser_Return in Hcreate as (x & -> & Hx & -> & ->).
  assert (statusChanges this0 !! uuid = None) as Hnone.
  { destruct (statusChanges this0 !! uuid) as [l|] eqn:Hl; [|done].
    apply (reachable_ledger_keys _ _ _ Hr) in Hl as [? Hl]. congruence. }
  set (d := {| Dispenser.id := uuid; Dispenser.flow_volume := x;
               Dispenser.state := CLOSE; Dispenser.updated_at := ValidDate now0 |}) in *.
  assert (find_dispenser uuid (dispensers this0 ++ [d])
          = Some (length (dispensers this0), d)) as Hfind1.
  { unfold find_dispenser in *. rewrite list_find_app_r by done.
    simpl. rewrite decide_True by done. simpl. done. }
  (* the open request *)
  unfold changeDispenserStatus, handle_open in Hopen. unfold_M.
  rewrite Hfind1 in Hopen. simpl in Hopen.
  destruct (DateOps.parse_isNaN T0) eqn:HT0; [by inversion Hopen|].
  rewrite Hnone in Hopen. simpl in Hopen. inversion Hopen. subst this2 d1.
  clear Hopen.
  (* the close request *)
  unfold changeDispenserStatus, handle_close, updateTotalSpentPerDispenser in Hclose.
  unfold_M.
  erewrite find_dispenser_insert in Hclose; [|exact Hfind1|done].
  simpl in Hclose.
  destruct (DateOps.parse_isNaN T1) eqn:HT1; [by inversion Hclose|].
  rewrite lookup_insert_eq in Hclose. simpl in Hclose.
  destruct (DateOps.leb T1 T0) eqn:Hle; [by inversion Hclose|].
  simpl in Hclose. inversion Hclose. subst this3 d2. clear Hclose.
  eexists.
  erewrite (getSpending_closed_period _ _ uuid _ _ []); simpl.
  - reflexivity.
  - erewrite find_dispenser_insert; [done| |done].
    erewrite find_dispenser_insert; [done|exact Hfind1|done].
  - by rewrite lookup_insert_eq.
  - done.
Qed.

Lemma reachable_exec_all cs this :
  reachable this → reachable (exec_all cs this).
Proof.
  revert this. induction cs as [|c cs IH]; intros this Hr; [done|].
  simpl. apply IH. by constructor.
Qed.

(** ** Creation *)


(** The flow-volume check of [createDispenser]: the call throws the
    invalid-flow error exactly when the argument is not of type number or
    compares [<= 0]; otherwise it pushes and returns the new dispenser. *)
Lemma createDispenser_spec uuid now flow_volume this :
  match flow_volume with
  | VNumber x =>
      if PrimFloat.leb x 0
      then createDispenser uuid now flow_volume this = (this, Throw (Error INVALID_FLOW))
      else
        let d := {| Dispenser.id := uuid; Dispenser.flow_volume := x;
                    Dispenser.state := CLOSE;
                    Dispenser.updated_at := ValidDate now |} in
        createDispenser uuid now flow_volume this
        = ({| dispensers := dispensers this ++ [d];
              statusChanges := statusChanges this;
              totalSpentPerDispenser := totalSpentPerDispenser this |},
           Return d)
  | _ => createDispenser uuid now flow_volume this = (this, Throw (Error INVALID_FLOW))
  end.
Proof.
  unfold createDispenser. unfold_M.
  destruct flow_volume as [| |b|x|s]; try done.
  by destruct (PrimFloat.leb x 0).
Qed.


(** ** Every outcome of a status change *)

Local Abbreviation status_outcome := (status_outcome PRICE_PER_LITRE).

Ltac unfold_store :=
  unfold set_statusChanges, set_dispensers, set_totalSpentPerDispenser;
  simpl.

Lemma changeDispenserStatus_outcome id state updatedAt this :
  status_outcome this id state updatedAt
    (fst (changeDispenserStatus id state updatedAt this))
    (snd (changeDispenserStatus id state updatedAt this)).
Proof.
  unfold changeDispenserStatus, handle_open, handle_close,
    updateTotalSpentPerDispenser. unfold_M.
  destruct (find_dispenser id (dispensers this)) as [[i d]|] eqn:Hfind;
    [|by apply outcome_not_found].
  destruct (decide (state = OPEN)) as [->|Hno].
  - simpl. destruct updatedAt as [t|]; simpl;
      [|eapply outcome_invalid_date; eauto].
    destruct (decide (Dispenser.state d = OPEN)) as [Hd|Hd].
    { rewrite bool_decide_eq_true_2 by done.
      eapply outcome_same_state; eauto. }
    rewrite bool_decide_eq_false_2 by done. simpl.
    destruct (statusChanges this !! id) as [l|] eqn:Hl; simpl;
      [|unfold_store; eapply outcome_first_open; eauto].
    destruct (last l) as [p|] eqn:Hp; simpl.
    + destruct (DateOps.leb _ _) eqn:Hle; simpl.
      * unfold_store; eapply outcome_open_refused; eauto.
      * unfold_store; eapply outcome_open_pushed; eauto. intros q Hq. by simplify_eq.
    + unfold_store; eapply outcome_open_pushed; eauto. intros q Hq. by simplify_eq.
  - destruct (decide (state = CLOSE)) as [->|Hnc].
    + simpl. destruct updatedAt as [t|]; simpl;
        [|eapply outcome_invalid_date; eauto].
      destruct (decide (Dispenser.state d = CLOSE)) as [Hd|Hd].
      { rewrite bool_decide_eq_true_2 by done.
        eapply outcome_same_state; eauto. }
      rewrite bool_decide_eq_false_2 by done. simpl.
      destruct (statusChanges this !! id) as [l|] eqn:Hl; simpl;
        [|unfold_store; eapply outcome_close_nothing; eauto].
      destruct (last l) as [p|] eqn:Hp; simpl.
      * apply last_Some in Hp as [l0 ->].
        destruct (DateOps.leb _ _) eqn:Hle; simpl.
        -- unfold_store; eapply outcome_close_refused; eauto.
        -- rewrite alter_last_snoc. unfold_store; eapply outcome_closed; eauto.
      * apply last_None in Hp as ->. unfold_store; eapply outcome_close_empty; eauto.
    + rewrite !bool_decide_eq_true_2 by done. simpl.
      eapply outcome_invalid_status; eauto.
Qed.

Lemma changeDispenserStatus_inv id state updatedAt this this' r :
  changeDispenserStatus id state updatedAt this = (this', r) →
  status_outcome this id state updatedAt this' r.
Proof.
  intros H. pose proof (changeDispenserStatus_outcome id state updatedAt this) as Ho.
  by rewrite H in Ho.
Qed.

(** ** The checks of a status change *)


(** ** What a spending query assigns *)

(** The store after [getSpending]: as before, or with the estimate assigned
    to the open last period and added to the running total. *)
Lemma getSpending_store now id this :
  fst (getSpending now id this) = this ∨
  ∃ i d l p,
    find_dispenser id (dispensers this) = Some (i, d) ∧
    statusChanges this !! id = Some (l ++ [p]) ∧
    StatusChange.closed_at p = None ∧
    fst (getSpending now id this)
    = {| dispensers := dispensers this;
         statusChanges :=
           <[id := l ++ [set_total_spent
                           (calculateTotalSpent (StatusChange.opened_at p)
                              (ValidDate now) (StatusChange.flow_volume p)) p]]>
             (statusChanges this);
         totalSpentPerDispenser :=
           <[id := PrimFloat.add
                     (Number.or_zero (totalSpentPerDispenser this !! id))
                     (calculateTotalSpent (StatusChange.opened_at p)
                        (ValidDate now) (StatusChange.flow_volume p))]>
             (totalSpentPerDispenser this) |}.
Proof.
  destruct (find_dispenser id (dispensers this)) as [[i d]|] eqn:Hfind.
  - destruct (statusChanges this !! id) as [l|] eqn:Hl.
    + destruct (last l) as [p|] eqn:Hp.
      * apply last_Some in Hp as [l0 ->].
        destruct (StatusChange.closed_at p) as [c|] eqn:Hc.
        -- left. by erewrite getSpending_closed_period.
        -- right. exists i, d, l0, p. repeat split; try done.
           pose proof (getSpending_open_period _ now _ _ _ _ _ Hfind Hl Hc) as H.
           simpl in H. by rewrite H.
      * left. unfold getSpending. unfold_M. by rewrite Hfind, Hl, Hp.
    + left. unfold getSpending. unfold_M. by rewrite Hfind, Hl.
  - left. unfold getSpending. unfold_M. by rewrite Hfind.
Qed.

(** X2.  A spending query never changes the dispensers array, never adds,
    removes or creates a usage array or a period, and never changes a
    period's [opened_at], [closed_at] or [flow_volume]; when the dispenser
    has no usage array or its last period is closed, the query changes
    nothing at all. *)
Theorem getSpending_frame this now id :
  dispensers (fst (getSpending now id this)) = dispensers this ∧
  (∀ id', (fmap period_times) <$> (statusChanges (fst (getSpending now id this)) !! id')
          = (fmap period_times) <$> (statusChanges this !! id')) ∧
  (¬ last_open (statusChanges this !! id) →
   fst (getSpending now id this) = this).
Proof.
  destruct (getSpending_store now id this)
    as [->|(i & d & l & p & Hfind & Hl & Hc & ->)].
  - done.
  - simpl. repeat split.
    + intros id'. destruct (decide (id = id')) as [<-|Hne].
      * rewrite lookup_insert_eq, Hl. simpl. by rewrite !fmap_app.
      * by rewrite lookup_insert_ne.
    + intros Hno. exfalso. apply Hno. exists l, p. done.
Qed.

(** ** Calls about one id leave the others alone *)

Lemma find_dispenser_index_ne id (l : list Dispenser.t) i d j d0 :
  find_dispenser id l = Some (i, d) →
  l !! j = Some d0 → Dispenser.id d0 ≠ id → i ≠ j.
Proof.
  intros Hfind Hj Hne ->.
  apply find_dispenser_Some in Hfind as [Hi Hid]. congruence.
Qed.

(** X3.  A call about one id leaves alone the usage array and the running
    total kept under every other id, and every dispenser that has another
    id, at its position. *)
Theorem exec_other_ids c this id' :
  id' ≠ call_id c →
  statusChanges (exec c this) !! id' = statusChanges this !! id' ∧
  totalSpentPerDispenser (exec c this) !! id'
  = totalSpentPerDispenser this !! id' ∧
  ∀ j d0, dispensers this !! j = Some d0 → Dispenser.id d0 = id' →
          dispensers (exec c this) !! j = Some d0.
Proof.
  intros Hne. destruct c as [uuid now flow_volume|id state updatedAt|now id];
    simpl in *.
  - unfold createDispenser. unfold_M.
    destruct flow_volume as [| |b|x|s]; try done.
    destruct (PrimFloat.leb x 0); [done|]. simpl.
    repeat split. intros j d0 Hj _.
    rewrite lookup_app_l; [done|]. by eapply lookup_lt_Some.
  - pose proof (changeDispenserStatus_outcome id state updatedAt this) as Ho.
    destruct (changeDispenserStatus id state updatedAt this) as [this' r].
    simpl in *.
    destruct Ho; simpl; repeat split; rewrite ?lookup_insert_ne by done;
      try done;
      intros j d0 Hj Hid; (rewrite list_lookup_insert_ne; [done|]);
      eapply find_dispenser_index_ne; eauto; congruence.
  - destruct (getSpending_store now id this)
      as [->|(i & d & l & p & Hfind & Hl & Hc & ->)]; [done|].
    simpl. by rewrite !lookup_insert_ne by done.
Qed.

(** ** What a successful open and a successful close store *)





(** ** What the manager keeps true of its store *)

Lemma find_dispenser_insert_other id' (l : list Dispenser.t) i d0 d' i' e :
  find_dispenser id' l = Some (i', e) →
  l !! i = Some d0 →
  Dispenser.id d' = Dispenser.id d0 →
  Dispenser.id d0 ≠ id' →
  find_dispenser id' (<[i := d']> l) = Some (i', e).
Proof.
  unfold find_dispenser. intros Hfind Hi Hid Hne.
  apply list_find_Some in Hfind as (Hi' & He & Hlt).
  assert (i ≠ i') as Hii by (intros ->; congruence).
  apply list_find_Some. split; [|split].
  - by rewrite list_lookup_insert_ne.
  - done.
  - intros j y Hj Hji. destruct (decide (i = j)) as [<-|Hij].
    + rewrite list_lookup_insert_eq in Hj by (by eapply lookup_lt_Some).
      simplify_eq. congruence.
    + rewrite list_lookup_insert_ne in Hj by done. eauto.
Qed.

Lemma finds_kept_refl l : finds_kept l l.
Proof. intros id i d H. eauto. Qed.

Lemma finds_kept_app l d0 : finds_kept l (l ++ [d0]).
Proof.
  intros id i d H. exists d. split; [|done].
  unfold find_dispenser in *. by apply list_find_app_l.
Qed.

Lemma finds_kept_assigned id l i d state updatedAt :
  find_dispenser id l = Some (i, d) →
  finds_kept l (<[i := assigned d state updatedAt]> l).
Proof.
  intros Hfind id' i' e He.
  apply find_dispenser_Some in Hfind as Hd. destruct Hd as [Hi Hid].
  destruct (decide (id' = id)) as [->|Hne].
  - rewrite Hfind in He. simplify_eq. eexists. split.
    + by eapply find_dispenser_insert.
    + done.
  - exists e. split; [|done].
    eapply find_dispenser_insert_other; eauto. congruence.
Qed.

Lemma dispenser_ok_assigned d state t :
  dispenser_ok d → state = OPEN ∨ state = CLOSE →
  dispenser_ok (assigned d state (ValidDate t)).
Proof. intros (_ & Hf & _) Hst. by repeat split. Qed.

(** The usage arrays stay as [store_ok] wants them when the dispensers are
    found as before and the array under [id] is replaced by a good one. *)
Lemma ledger_ok_insert (this : DispenserManager) ds id l' :
  store_ok this →
  finds_kept (dispensers this) ds →
  l' ≠ [] →
  (∀ i d, find_dispenser id (dispensers this) = Some (i, d) →
          Forall (period_ok (Dispenser.flow_volume d)) l') →
  is_Some (find_dispenser id (dispensers this)) →
  ∀ id0 l0, <[id := l']> (statusChanges this) !! id0 = Some l0 →
    l0 ≠ [] ∧
    ∃ i d, find_dispenser id0 ds = Some (i, d) ∧
           Forall (period_ok (Dispenser.flow_volume d)) l0.
Proof.
  intros (_ & Hledger & _) Hkept Hne Hl' [[i d] Hfind] id0 l0 Hl0.
  destruct (decide (id = id0)) as [<-|Hid].
  - rewrite lookup_insert_eq in Hl0. simplify_eq. split; [done|].
    destruct (Hkept _ _ _ Hfind) as (d' & Hd' & Hfv).
    exists i, d'. split; [done|]. rewrite Hfv. eauto.
  - rewrite lookup_insert_ne in Hl0 by done.
    destruct (Hledger _ _ Hl0) as (Hne0 & i0 & d0 & Hf0 & Hok).
    split; [done|].
    destruct (Hkept _ _ _ Hf0) as (d' & Hd' & Hfv).
    exists i0, d'. split; [done|]. by rewrite Hfv.
Qed.

Lemma ledger_ok_same (this : DispenserManager) ds :
  store_ok this →
  finds_kept (dispensers this) ds →
  ∀ id0 l0, statusChanges this !! id0 = Some l0 →
    l0 ≠ [] ∧
    ∃ i d, find_dispenser id0 ds = Some (i, d) ∧
           Forall (period_ok (Dispenser.flow_volume d)) l0.
Proof.
  intros (_ & Hledger & _) Hkept id0 l0 Hl0.
  destruct (Hledger _ _ Hl0) as (Hne0 & i0 & d0 & Hf0 & Hok).
  split; [done|].
  destruct (Hkept _ _ _ Hf0) as (d' & Hd' & Hfv).
  exists i0, d'. split; [done|]. by rewrite Hfv.
Qed.

Lemma totals_ok_insert (this : DispenserManager) id l' x :
  store_ok this →
  ∀ id0 y, <[id := x]> (totalSpentPerDispenser this) !! id0 = Some y →
           is_Some (<[id := l']> (statusChanges this) !! id0).
Proof.
  intros (_ & _ & Htotals) id0 y Hy.
  destruct (decide (id = id0)) as [<-|Hid].
  - rewrite lookup_insert_eq. eauto.
  - rewrite lookup_insert_ne in Hy by done. rewrite lookup_insert_ne by done.
    eauto.
Qed.

Lemma totals_ok_ledger_insert (this : DispenserManager) id l' :
  store_ok this →
  ∀ id0 y, totalSpentPerDispenser this !! id0 = Some y →
           is_Some (<[id := l']> (statusChanges this) !! id0).
Proof.
  intros (_ & _ & Htotals) id0 y Hy.
  destruct (decide (id = id0)) as [<-|Hid].
  - rewrite lookup_insert_eq. eauto.
  - rewrite lookup_insert_ne by done. eauto.
Qed.

Lemma period_ok_opened d t :
  period_ok (Dispenser.flow_volume d) (opened_period d (ValidDate t)).
Proof. split; [done|]. exists t. done. Qed.

Lemma period_ok_closed fv p t total_spent :
  period_ok fv p →
  DateOps.leb (ValidDate t) (StatusChange.opened_at p) = false →
  period_ok fv (close_period (ValidDate t) total_spent p).
Proof.
  intros (Hfv & o & Ho & _) Hle. split; [done|]. exists o. split; [done|].
  simpl. exists t. split; [done|].
  rewrite Ho in Hle. unfold DateOps.leb in Hle.
  apply bool_decide_eq_false in Hle. lia.
Qed.

Lemma period_ok_estimate fv p total_spent :
  period_ok fv p → period_ok fv (set_total_spent total_spent p).
Proof. intros (Hfv & o & Ho & Hc). split; [done|]. exists o. done. Qed.

Lemma store_ok_found (this : DispenserManager) id i d :
  store_ok this →
  find_dispenser id (dispensers this) = Some (i, d) →
  dispenser_ok d.
Proof.
  intros (Hd & _) Hfind. apply find_dispenser_Some in Hfind as [Hi _].
  eapply Forall_lookup_1; eauto.
Qed.

Lemma store_ok_periods (this : DispenserManager) id i d l :
  store_ok this →
  find_dispenser id (dispensers this) = Some (i, d) →
  statusChanges this !! id = Some l →
  Forall (period_ok (Dispenser.flow_volume d)) l.
Proof.
  intros (_ & Hledger & _) Hfind Hl.
  destruct (Hledger _ _ Hl) as (_ & i0 & d0 & Hf0 & Hok). by simplify_eq.
Qed.

Lemma changeDispenserStatus_store_ok id state updatedAt this :
  store_ok this →
  store_ok (fst (changeDispenserStatus id state updatedAt this)).
Proof.
  intros Hok.
  pose proof (changeDispenserStatus_outcome id state updatedAt this) as Ho.
  destruct (changeDispenserStatus id state updatedAt this) as [this' r].
  simpl in *.
  destruct Ho as [ | | | | i d t Hfind -> -> Hst Hl
                   | i d t l p Hfind -> -> Hst Hl Hp Hle
                   | i d t l Hfind -> -> Hst Hl Hle
                   | i d t Hfind -> -> Hst Hl
                   | i d t Hfind -> -> Hst Hl
                   | i d t l p Hfind -> -> Hst Hl Hle
                   | i d t l p Hfind -> -> Hst Hl Hle]; try done.
  all: pose proof (store_ok_found _ _ _ _ Hok Hfind) as Hd.
  all: pose proof (λ st u, finds_kept_assigned id _ i d st u Hfind) as Hkept.
  all: assert (∀ state, state = OPEN ∨ state = CLOSE →
         Forall dispenser_ok
           (<[i := assigned d state (ValidDate t)]> (dispensers this))) as Hds
         by (intros st Hs; apply Forall_insert;
             [apply Hok|by apply dispenser_ok_assigned]).
  - (* first open *)
    split; [|split]; simpl.
    + apply Hds. by left.
    + eapply (ledger_ok_insert this); eauto.
      intros i0 d0 H0. rewrite Hfind in H0. simplify_eq.
      apply Forall_singleton, period_ok_opened.
    + by apply totals_ok_ledger_insert.
  - (* open refused *)
    split; [|split]; simpl.
    + apply Hds. by left.
    + eapply (ledger_ok_same this); eauto.
    + apply Hok.
  - (* period pushed *)
    split; [|split]; simpl.
    + apply Hds. by left.
    + eapply (ledger_ok_insert this); eauto.
      * by destruct l.
      * intros i0 d0 H0. rewrite Hfind in H0. simplify_eq.
        apply Forall_app. split; [by eapply store_ok_periods|].
        apply Forall_singleton, period_ok_opened.
    + by apply totals_ok_ledger_insert.
  - (* close, no usage array *)
    split; [|split]; simpl.
    + apply Hds. by right.
    + eapply (ledger_ok_same this); eauto.
    + apply Hok.
  - (* close, empty usage array *)
    split; [|split]; simpl.
    + apply Hds. by right.
    + eapply (ledger_ok_same this); eauto.
    + apply Hok.
  - (* close refused *)
    split; [|split]; simpl.
    + apply Hds. by right.
    + eapply (ledger_ok_same this); eauto.
    + apply Hok.
  - (* closed *)
    split; [|split]; simpl.
    + apply Hds. by right.
    + eapply (ledger_ok_insert this); eauto.
      * by destruct l.
      * intros i0 d0 H0. rewrite Hfind in H0. simplify_eq.
        pose proof (store_ok_periods _ _ _ _ _ Hok Hfind Hl) as Hps.
        apply Forall_app in Hps as [Hl0 Hp0].
        apply Forall_app. split; [done|].
        apply Forall_singleton. rewrite Forall_singleton in Hp0.
        by apply period_ok_closed.
    + by apply totals_ok_insert.
Qed.

Lemma getSpending_store_ok now id this :
  store_ok this → store_ok (fst (getSpending now id this)).
Proof.
  intros Hok.
  destruct (getSpending_store now id this)
    as [->|(i & d & l & p & Hfind & Hl & Hc & ->)]; [done|].
  split; [|split]; simpl.
  - apply Hok.
  - eapply (ledger_ok_insert this); eauto using finds_kept_refl.
    + by destruct l.
    + intros i0 d0 H0. rewrite Hfind in H0. simplify_eq.
      pose proof (store_ok_periods _ _ _ _ _ Hok Hfind Hl) as Hps.
      apply Forall_app in Hps as [Hl0 Hp0].
      apply Forall_app. split; [done|].
      apply Forall_singleton. rewrite Forall_singleton in Hp0.
      by apply period_ok_estimate.
  - by apply totals_ok_insert.
Qed.

Lemma createDispenser_store_ok uuid now flow_volume this :
  store_ok this → store_ok (fst (createDispenser uuid now flow_volume this)).
Proof.
  intros Hok. unfold createDispenser. unfold_M.
  destruct flow_volume as [| |b|x|s]; try done.
  destruct (PrimFloat.leb x 0) eqn:Hx; [done|]. simpl.
  split; [|split]; simpl.
  - apply Forall_app. split; [apply Hok|].
    apply Forall_singleton. repeat split; [by right|done].
  - eapply (ledger_ok_same this); eauto using finds_kept_app.
  - apply Hok.
Qed.

Lemma exec_store_ok c this : store_ok this → store_ok (exec c this).
Proof.
  destruct c; simpl.
  - apply createDispenser_store_ok.
  - apply changeDispenserStatus_store_ok.
  - apply getSpending_store_ok.
Qed.

Lemma reachable_store_ok this : reachable this → store_ok this.
Proof.
  induction 1 as [|c this Hr IH].
  - split; [|split]; simpl.
    + constructor.
    + intros id l Hl. by rewrite lookup_empty in Hl.
    + intros id x Hx. by rewrite lookup_empty in Hx.
  - by apply exec_store_ok.
Qed.

(** X8.  In every reachable store each dispenser is in state "open" or
    "close", has a flow volume for which [flow_volume <= 0] is false, and
    has a valid date as [updated_at]. *)
Theorem reachable_dispensers_ok this d :
  reachable this →
  d ∈ dispensers this →
  (Dispenser.state d = OPEN ∨ Dispenser.state d = CLOSE) ∧
  PrimFloat.leb (Dispenser.flow_volume d) 0 = false ∧
  ∃ t, Dispenser.updated_at d = ValidDate t.
Proof.
  intros Hr Hd. apply reachable_store_ok in Hr as (Hds & _).
  rewrite Forall_forall in Hds. destruct (Hds d Hd) as (Hst & Hfv & Hu).
  repeat split; try done.
  destruct (Dispenser.updated_at d) as [t|]; [eauto|done].
Qed.

(** X9.  In every reachable store each usage period is kept under the id of
    an existing dispenser and carries that dispenser's flow volume; its
    [opened_at] is a valid date, and its [closed_at], when it has one, is a
    valid date strictly after its [opened_at]. *)
Theorem reachable_periods_ok this id l p :
  reachable this →
  statusChanges this !! id = Some l →
  p ∈ l →
  ∃ i d o,
    find_dispenser id (dispensers this) = Some (i, d) ∧
    StatusChange.flow_volume p = Dispenser.flow_volume d ∧
    StatusChange.opened_at p = ValidDate o ∧
    ∀ c, StatusChange.closed_at p = Some c → ∃ c', c = ValidDate c' ∧ o < c'.
Proof.
  intros Hr Hl Hp. apply reachable_store_ok in Hr as (_ & Hledger & _).
  destruct (Hledger _ _ Hl) as (_ & i & d & Hfind & Hok).
  rewrite Forall_forall in Hok. destruct (Hok p Hp) as (Hfv & o & Ho & Hc).
  exists i, d, o. repeat split; try done.
  intros c Hpc. by rewrite Hpc in Hc.
Qed.

(** X10.  In every reachable store a running total is kept only under an id
    that has a usage array, and a usage array only under the id of an
    existing dispenser; and no usage array is empty. *)
Theorem reachable_keys this id :
  reachable this →
  (∀ x, totalSpentPerDispenser this !! id = Some x →
        is_Some (statusChanges this !! id)) ∧
  (∀ l, statusChanges this !! id = Some l →
        l ≠ [] ∧ is_Some (find_dispenser id (dispensers this))).
Proof.
  intros Hr. apply reachable_store_ok in Hr as (_ & Hledger & Htotals).
  split.
  - intros x Hx. eauto.
  - intros l Hl. destruct (Hledger _ _ Hl) as (Hne & i & d & Hfind & _).
    split; [done|eauto].
Qed.

(** X11.  On a reachable store neither [changeDispenserStatus] nor
    [getSpending] runs into a [TypeError]: the usage array they read the
    last element of is never empty. *)
Theorem reachable_no_TypeError this :
  reachable this →
  (∀ id state updatedAt,
     snd (changeDispenserStatus id state updatedAt this) ≠ Throw TypeError) ∧
  (∀ now id, snd (getSpending now id this) ≠ Throw TypeError).
Proof.
  intros Hr. split.
  - intros id state updatedAt.
    pose proof (changeDispenserStatus_outcome id state updatedAt this) as Ho.
    destruct (changeDispenserStatus id state updatedAt this) as [this' r].
    simpl in *. destruct Ho; try done.
    match goal with H : statusChanges _ !! _ = Some [] |- _ =>
      by apply (reachable_ledger_nonempty _ _ _ Hr) in H end.
  - intros now id.
    destruct (find_dispenser id (dispensers this)) as [[i d]|] eqn:Hfind.
    + destruct (getSpending_returns this now id Hr) as [r ->]; [eauto|done].
    + unfold getSpending. unfold_M. by rewrite Hfind.
Qed.

(** ** Runs without a refused status change *)

Local Abbreviation refused := (refused PRICE_PER_LITRE).
Local Abbreviation reachable_unrefused := (reachable_unrefused PRICE_PER_LITRE).

Lemma time_ordered_last l p p' :
  StatusChange.opened_at p' = StatusChange.opened_at p →
  time_ordered (l ++ [p']) = time_ordered (l ++ [p]).
Proof.
  intros Ho. induction l as [|a l IH]; [done|].
  destruct l as [|b l]; simpl in *.
  - unfold strictly_after. by rewrite Ho.
  - by rewrite IH.
Qed.

Lemma time_ordered_snoc l q p :
  time_ordered (l ++ [q]) = true →
  strictly_after q p = true →
  time_ordered ((l ++ [q]) ++ [p]) = true.
Proof.
  intros Hl Hqp. induction l as [|a l IH]; simpl in *.
  - by rewrite Hqp.
  - destruct l as [|b l]; simpl in *.
    + apply andb_true_iff in Hl as [-> _]. by rewrite Hqp.
    + apply andb_true_iff in Hl as [-> Hl]. simpl. by apply IH.
Qed.

Lemma open_only_last_last l p p' :
  open_only_last (l ++ [p']) = open_only_last (l ++ [p]).
Proof.
  induction l as [|a l IH]; [done|].
  destruct l as [|b l]; simpl in *; [done|]. by rewrite IH.
Qed.

Lemma open_only_last_snoc l q p :
  open_only_last (l ++ [q]) = true →
  is_Some (StatusChange.closed_at q) →
  open_only_last ((l ++ [q]) ++ [p]) = true.
Proof.
  intros Hl Hq. induction l as [|a l IH]; simpl in *.
  - by rewrite bool_decide_eq_true_2.
  - destruct l as [|b l]; simpl in *.
    + apply andb_true_iff in Hl as [-> _]. by rewrite bool_decide_eq_true_2.
    + apply andb_true_iff in Hl as [-> Hl]. simpl. by apply IH.
Qed.

Lemma find_dispenser_insert_other_eq id' (l : list Dispenser.t) i d0 d' :
  l !! i = Some d0 →
  Dispenser.id d' = Dispenser.id d0 →
  Dispenser.id d0 ≠ id' →
  find_dispenser id' (<[i := d']> l) = find_dispenser id' l.
Proof.
  intros Hi Hid Hne.
  destruct (find_dispenser id' l) as [[i' e]|] eqn:Hfind.
  - by eapply find_dispenser_insert_other.
  - unfold find_dispenser in *. apply list_find_None.
    apply list_find_None in Hfind.
    apply Forall_insert; [done|]. congruence.
Qed.

Lemma last_open_snoc l p :
  last_open (Some (l ++ [p])) ↔ StatusChange.closed_at p = None.
Proof.
  split.
  - intros (l0 & p0 & Heq & Hc). simplify_eq.
    apply app_inj_tail in Heq as [_ ->]. done.
  - intros Hc. by exists l, p.
Qed.

Lemma last_open_None : ¬ last_open None.
Proof. by intros (l0 & p0 & Heq & _). Qed.

(** A status change that is not refused keeps the agreement of states and
    usage arrays, and the order of the periods. *)
Lemma changeDispenserStatus_keeps_order id state updatedAt this :
  store_ok this → state_agrees this → usage_ordered this →
  snd (changeDispenserStatus id state updatedAt this)
  ≠ Throw (Error INVALID_DATE_ORDER) →
  state_agrees (fst (changeDispenserStatus id state updatedAt this)) ∧
  usage_ordered (fst (changeDispenserStatus id state updatedAt this)).
Proof.
  intros Hok Hagree Hord.
  pose proof (changeDispenserStatus_outcome id state updatedAt this) as Ho.
  destruct (changeDispenserStatus id state updatedAt this) as [this' r].
  simpl in *. intros Hr.
  destruct Ho as [ | | | | i d t Hfind -> -> Hst Hl
                   | i d t l p Hfind -> -> Hst Hl Hp Hle
                   | i d t l Hfind -> -> Hst Hl Hle
                   | i d t Hfind -> -> Hst Hl
                   | i d t Hfind -> -> Hst Hl
                   | i d t l p Hfind -> -> Hst Hl Hle
                   | i d t l p Hfind -> -> Hst Hl Hle]; try done.
  all: pose proof (store_ok_found _ _ _ _ Hok Hfind) as (Hd & _).
  all: apply find_dispenser_Some in Hfind as Hfi; destruct Hfi as [Hi Hid].
  all: assert (∀ st u id' i' d',
         find_dispenser id' (<[i := assigned d st u]> (dispensers this))
         = Some (i', d') →
         (id' = id ∧ d' = assigned d st u) ∨
         (id' ≠ id ∧ find_dispenser id' (dispensers this) = Some (i', d')))
    as Hcases
    by (intros st u id' i' d' H'; destruct (decide (id' = id)) as [->|Hne];
        [left; split; [done|];
         erewrite find_dispenser_insert in H' by done; by simplify_eq
        |right; split; [done|];
         erewrite find_dispenser_insert_other_eq in H'; eauto; congruence]).
  - (* first open *)
    split.
    + intros id' i' d' H'. simpl in *.
      destruct (Hcases _ _ _ _ _ H') as [[-> ->]|[Hne H0]].
      * rewrite lookup_insert_eq. simpl. split; [|done].
        intros _. by exists [], (opened_period d (ValidDate t)).
      * rewrite lookup_insert_ne by done. by apply (Hagree _ _ _ H0).
    + intros id' l' Hl'. simpl in *.
      destruct (decide (id = id')) as [<-|Hne].
      * rewrite lookup_insert_eq in Hl'. by simplify_eq.
      * rewrite lookup_insert_ne in Hl' by done. eauto.
  - (* period pushed *)
    assert (Dispenser.state d = CLOSE) as Hclose by (by destruct Hd).
    destruct (proj1 (proj2 Hok) _ _ Hl) as (Hne & _).
    apply last_is_Some in Hne as [q Hq].
    apply last_Some in Hq as Hq'. destruct Hq' as [l0 ->].
    assert (∃ c, StatusChange.closed_at q = Some (ValidDate c) ∧ c < t)
      as (c & Hc & Hct).
    { destruct (StatusChange.closed_at q) as [c|] eqn:Hc.
      - pose proof (store_ok_periods _ _ _ _ _ Hok Hfind Hl) as Hps.
        apply Forall_app in Hps as [_ Hq0]. rewrite Forall_singleton in Hq0.
        destruct Hq0 as (_ & o & _ & Hqc). rewrite Hc in Hqc.
        destruct Hqc as (c' & -> & _). exists c'. split; [done|].
        specialize (Hle q Hq). rewrite Hc in Hle. unfold DateOps.leb in Hle.
        simpl in Hle. apply bool_decide_eq_false in Hle. lia.
      - exfalso. apply Hst. apply (Hagree _ _ _ Hfind).
        rewrite Hl. by apply last_open_snoc. }
    split.
    + intros id' i' d' H'. simpl in *.
      destruct (Hcases _ _ _ _ _ H') as [[-> ->]|[Hne H0]].
      * rewrite lookup_insert_eq. simpl. split; [|done].
        intros _. by apply last_open_snoc.
      * rewrite lookup_insert_ne by done. by apply (Hagree _ _ _ H0).
    + intros id' l' Hl'. simpl in *.
      destruct (decide (id = id')) as [<-|Hne].
      * rewrite lookup_insert_eq in Hl'. simplify_eq.
        destruct (Hord _ _ Hl) as [Hto Hol]. split.
        -- apply time_ordered_snoc; [done|].
           unfold strictly_after. rewrite Hc. simpl.
           by rewrite bool_decide_eq_true_2.
        -- apply open_only_last_snoc; [done|]. rewrite Hc. eauto.
      * rewrite lookup_insert_ne in Hl' by done. eauto.
  - (* close, no usage array *)
    exfalso. assert (Dispenser.state d = OPEN) as Hopen by (by destruct Hd).
    apply (Hagree _ _ _ Hfind) in Hopen. rewrite Hl in Hopen.
    by apply last_open_None in Hopen.
  - (* close, empty usage array *)
    exfalso. by destruct (proj1 (proj2 Hok) _ _ Hl) as (Hne & _).
  - (* closed *)
    split.
    + intros id' i' d' H'. simpl in *.
      destruct (Hcases _ _ _ _ _ H') as [[-> ->]|[Hne H0]].
      * rewrite lookup_insert_eq. simpl. split; [done|].
        intros Hopen. by apply last_open_snoc in Hopen.
      * rewrite lookup_insert_ne by done. by apply (Hagree _ _ _ H0).
    + intros id' l' Hl'. simpl in *.
      destruct (decide (id = id')) as [<-|Hne].
      * rewrite lookup_insert_eq in Hl'. simplify_eq.
        destruct (Hord _ _ Hl) as [Hto Hol]. split.
        -- by rewrite (time_ordered_last _ p).
        -- by rewrite (open_only_last_last _ p).
      * rewrite lookup_insert_ne in Hl' by done. eauto.
Qed.

Lemma getSpending_keeps_order now id this :
  state_agrees this → usage_ordered this →
  state_agrees (fst (getSpending now id this)) ∧
  usage_ordered (fst (getSpending now id this)).
Proof.
  intros Hagree Hord.
  destruct (getSpending_store now id this)
    as [->|(i & d & l & p & Hfind & Hl & Hc & ->)]; [done|].
  split.
  - intros id' i' d' H'. simpl in *.
    destruct (decide (id = id')) as [<-|Hne].
    + rewrite lookup_insert_eq, last_open_snoc. simpl.
      rewrite (Hagree _ _ _ H'), Hl. by rewrite last_open_snoc.
    + rewrite lookup_insert_ne by done. by apply (Hagree _ _ _ H').
  - intros id' l' Hl'. simpl in *.
    destruct (decide (id = id')) as [<-|Hne].
    + rewrite lookup_insert_eq in Hl'. simplify_eq.
      destruct (Hord _ _ Hl) as [Hto Hol]. split.
      * by rewrite (time_ordered_last _ p).
      * by rewrite (open_only_last_last _ p).
    + rewrite lookup_insert_ne in Hl' by done. eauto.
Qed.

Lemma createDispenser_keeps_order uuid now flow_volume this :
  store_ok this → state_agrees this → usage_ordered this →
  state_agrees (fst (createDispenser uuid now flow_volume this)) ∧
  usage_ordered (fst (createDispenser uuid now flow_volume this)).
Proof.
  intros Hok Hagree Hord. unfold createDispenser. unfold_M.
  destruct flow_volume as [| |b|x|s]; try done.
  destruct (PrimFloat.leb x 0) eqn:Hx; [done|]. simpl.
  split; [|done].
  intros id i d H'. simpl in *.
  destruct (find_dispenser id (dispensers this)) as [[i0 d0]|] eqn:Hfind.
  - unfold find_dispenser in *.
    erewrite list_find_app_l in H' by done. simplify_eq.
    by apply (Hagree _ _ _ Hfind).
  - unfold find_dispenser in H'. rewrite list_find_app_r in H' by done.
    simpl in H'. case_decide; [|done]. subst id. simpl in H'.
    inversion H'; subst; clear H'. simpl.
    split; [done|]. intros (l0 & p0 & Hl & _).
    destruct (proj1 (proj2 Hok) _ _ Hl) as (_ & i & d & Hf & _).
    unfold find_dispenser in *. congruence.
Qed.

Lemma reachable_unrefused_reachable this :
  reachable_unrefused this → reachable this.
Proof. induction 1; by constructor. Qed.

(** X12.  As long as no status change has been refused with the date-order
    error, every usage array is strictly time-ordered (each period opens
    strictly after the previous one closed), only its last period can lack a
    [closed_at], and a dispenser is in state "open" exactly when the last
    period of its usage array is open. *)
Theorem unrefused_runs_keep_order this :
  reachable_unrefused this →
  (∀ id l, statusChanges this !! id = Some l →
     time_ordered l = true ∧ open_only_last l = true) ∧
  (∀ id i d, find_dispenser id (dispensers this) = Some (i, d) →
     (Dispenser.state d = OPEN ↔ last_open (statusChanges this !! id))).
Proof.
  intros Hr.
  cut (state_agrees this ∧ usage_ordered this); [tauto|].
  induction Hr as [|c this Hr [Hagree Hord] Hc].
  - split.
    + intros id i d H. done.
    + intros id l H. simpl in H. by rewrite lookup_empty in H.
  - apply reachable_unrefused_reachable, reachable_store_ok in Hr.
    destruct c as [uuid now flow_volume|id state updatedAt|now id]; simpl in *.
    + by apply createDispenser_keeps_order.
    + by apply changeDispenserStatus_keeps_order.
    + by apply getSpending_keeps_order.
Qed.

(** ** Two queries in a row *)

(** X13.  Two spending queries in a row on a dispenser whose last period is
    open: each adds its own estimate to the stored running total, while the
    period's [total_spent] holds the second estimate only; the amount
    returned by the second query is the running total with both estimates
    in it. *)
Theorem getSpending_twice this now1 now2 id i d l p :
  find_dispenser id (dispensers this) = Some (i, d) →
  statusChanges this !! id = Some (l ++ [p]) →
  StatusChange.closed_at p = None →
  let estimate now :=
    calculateTotalSpent (StatusChange.opened_at p) (ValidDate now)
      (StatusChange.flow_volume p) in
  let total1 :=
    PrimFloat.add (Number.or_zero (totalSpentPerDispenser this !! id))
      (estimate now1) in
  let total2 := PrimFloat.add (Number.or_zero (Some total1)) (estimate now2) in
  getSpending now2 id (fst (getSpending now1 id this))
  = ({| dispensers := dispensers this;
        statusChanges :=
          <[id := l ++ [set_total_spent (estimate now2) p]]> (statusChanges this);
        totalSpentPerDispenser :=
          <[id := total2]> (totalSpentPerDispenser this) |},
     Return {| amount := Number.or_zero (Some total2);
               usages := l ++ [set_total_spent (estimate now2) p] |}).
Proof.
  intros Hfind Hl Hc. simpl.
  pose proof (getSpending_open_period _ now1 _ _ _ _ _ Hfind Hl Hc) as H1.
  simpl in H1. rewrite H1. simpl.
  match goal with |- getSpending _ _ ?s = _ =>
    pose proof (getSpending_open_period s now2 id i d l
                  (set_total_spent
                     (calculateTotalSpent (StatusChange.opened_at p)
                        (ValidDate now1) (StatusChange.flow_volume p)) p)) as H2
  end.
  simpl in H2. rewrite H2; try done.
  - by rewrite !insert_insert_eq, lookup_insert_eq.
  - by rewrite lookup_insert_eq.
Qed.

(** ** A dispenser just created *)


(** ** The routes *)

Variable Date_parse : string → Date.

Local Abbreviation post_dispenser := (Routes.post_dispenser).
Local Abbreviation put_status := (Routes.put_status PRICE_PER_LITRE Date_parse).
Local Abbreviation get_spending := (Routes.get_spending PRICE_PER_LITRE).
Local Abbreviation changeDispenserStatus_of :=
  (Routes.changeDispenserStatus_of PRICE_PER_LITRE).
Local Abbreviation new_Date := (Routes.new_Date Date_parse).
Local Abbreviation serve := (Routes.serve PRICE_PER_LITRE Date_parse).
Local Abbreviation served := (Routes.served PRICE_PER_LITRE Date_parse).

(** A Number is above zero exactly when it is truthy and not [<= 0]; it is
    below zero exactly when it is truthy and [<= 0]. *)
Lemma number_above_zero x :
  PrimFloat.ltb 0 x = true ↔
  negb (PrimFloat.is_nan x || PrimFloat.is_zero x) = true ∧
  PrimFloat.leb x 0 = false.
Proof.
  unfold PrimFloat.is_nan, PrimFloat.is_zero.
  rewrite FloatAxioms.leb_spec, FloatAxioms.ltb_spec, !FloatAxioms.eqb_spec.
  change (Prim2SF 0) with (S754_zero false).
  change (Prim2SF PrimFloat.zero) with (S754_zero false).
  unfold SFleb, SFltb, SFeqb.
  destruct (Prim2SF x) as [s|s| |s m e]; try destruct s; simpl;
    rewrite ?Z.compare_refl, ?Pos.compare_cont_refl; simpl;
    intuition congruence.
Qed.

Lemma number_below_zero x :
  PrimFloat.ltb x 0 = true ↔
  negb (PrimFloat.is_nan x || PrimFloat.is_zero x) = true ∧
  PrimFloat.leb x 0 = true.
Proof.
  unfold PrimFloat.is_nan, PrimFloat.is_zero.
  rewrite FloatAxioms.leb_spec, FloatAxioms.ltb_spec, !FloatAxioms.eqb_spec.
  change (Prim2SF 0) with (S754_zero false).
  change (Prim2SF PrimFloat.zero) with (S754_zero false).
  unfold SFleb, SFltb, SFeqb.
  destruct (Prim2SF x) as [s|s| |s m e]; try destruct s; simpl;
    rewrite ?Z.compare_refl, ?Pos.compare_cont_refl; simpl;
    intuition congruence.
Qed.

Ltac unfold_handler :=
  unfold Routes.post_dispenser, Routes.put_status, Routes.get_spending,
    Routes.get_root, Routes.try_catch, Routes.respond in *;
  simpl in *.

(** X15.  [POST /dispenser] answers 400 "required" when [flow_volume] is
    absent or falsy (0 and NaN included), 400 "must be a number" when it is
    truthy and not a Number, 400 "must be positive" when it is a Number
    below zero, all three without touching the store; and for a Number above
    zero it answers 200 with the id and flow volume of the dispenser it has
    pushed, closed, onto the array.  It answers nothing else: neither 500
    nor the manager's own flow-volume error. *)
Theorem post_dispenser_response uuid now flow_volume this :
  (Routes.truthy flow_volume = false →
   post_dispenser uuid now flow_volume this
   = (this, {| status := 400; body := JsonError FLOW_VOLUME_REQUIRED |})) ∧
  (Routes.truthy flow_volume = true →
   (∀ x, flow_volume ≠ Primitive (VNumber x)) →
   post_dispenser uuid now flow_volume this
   = (this, {| status := 400; body := JsonError FLOW_VOLUME_MUST_BE_NUMBER |})) ∧
  (∀ x, flow_volume = Primitive (VNumber x) →
        PrimFloat.ltb x 0 = true →
        post_dispenser uuid now flow_volume this
        = (this, {| status := 400; body := JsonError FLOW_VOLUME_POSITIVE |})) ∧
  (∀ x, flow_volume = Primitive (VNumber x) →
        PrimFloat.ltb 0 x = true →
        post_dispenser uuid now flow_volume this
        = ({| dispensers :=
                dispensers this
                ++ [{| Dispenser.id := uuid; Dispenser.flow_volume := x;
                       Dispenser.state := CLOSE;
                       Dispenser.updated_at := ValidDate now |}];
              statusChanges := statusChanges this;
              totalSpentPerDispenser := totalSpentPerDispenser this |},
           {| status := 200; body := JsonDispenser uuid x |})) ∧
  (status (snd (post_dispenser uuid now flow_volume this)) = 200%nat ∨
   status (snd (post_dispenser uuid now flow_volume this)) = 400%nat).
Proof.
  repeat split.
  - intros Hf. unfold_handler. by rewrite Hf.
  - intros Ht Hn. unfold_handler. rewrite Ht. simpl.
    destruct flow_volume as [[| |b|x|s]|s]; try done. by destruct (Hn x).
  - intros x -> Hx. apply number_below_zero in Hx as [Ht Hle].
    unfold_handler. rewrite Ht. simpl. by rewrite Hle.
  - intros x -> Hx. apply number_above_zero in Hx as [Ht Hle].
    unfold_handler. rewrite Ht. simpl. by rewrite Hle.
  - unfold_handler. destruct (Routes.truthy flow_volume); simpl; [|by right].
    destruct flow_volume as [[| |b|x|s]|s]; simpl; try (by right).
    destruct (PrimFloat.leb x 0) eqn:Hle; simpl; [by right|by left].
Qed.

Lemma try_catch_fst {A} (c : M A) then_ catch this :
  fst (Routes.try_catch c then_ catch this) = fst (c this).
Proof. unfold Routes.try_catch. by destruct (c this) as [this' [a|e]]. Qed.

Lemma changeDispenserStatus_of_cases id status_ updatedAt this :
  (∃ state, status_ = Primitive (VString state) ∧
            changeDispenserStatus_of id status_ updatedAt this
            = changeDispenserStatus id state updatedAt this) ∨
  ((∀ state, status_ ≠ Primitive (VString state)) ∧
   ((find_dispenser id (dispensers this) = None ∧
     changeDispenserStatus_of id status_ updatedAt this
     = (this, Throw (Error DISPENSER_NOT_FOUND))) ∨
    (is_Some (find_dispenser id (dispensers this)) ∧
     changeDispenserStatus_of id status_ updatedAt this
     = (this, Throw (Error INVALID_DISPENSER_STATUS))))).
Proof.
  unfold Routes.changeDispenserStatus_of. unfold_M.
  destruct status_ as [[| |b|x|s]|s]; [right..|left; eauto|right].
  all: split; [done|].
  all: destruct (find_dispenser id (dispensers this)) as [[i d]|] eqn:Hfind;
    [right; eauto|left; eauto].
Qed.

(** The store a request leaves is the one a call of the manager leaves, or
    the store as it was. *)
Lemma serve_exec req this :
  fst (serve req this) = this ∨ ∃ c, fst (serve req this) = exec c this.
Proof.
  destruct req as [|uuid now flow_volume|id status_ updated_at|now id]; simpl.
  - by left.
  - unfold Routes.post_dispenser, Routes.respond.
    destruct (negb (Routes.truthy flow_volume)); [by left|].
    destruct flow_volume as [[| |b|x|s]|s]; try (by left).
    destruct (PrimFloat.leb x 0); [by left|].
    right. exists (CreateDispenser uuid now (VNumber x)).
    by rewrite try_catch_fst.
  - unfold Routes.put_status, Routes.respond.
    destruct (negb (Routes.truthy status_) || negb (Routes.truthy updated_at));
      [by left|].
    rewrite try_catch_fst.
    destruct (changeDispenserStatus_of_cases id status_ (new_Date updated_at) this)
      as [(state & -> & ->)|[_ [[_ ->]|[_ ->]]]]; [|by left..].
    right. by exists (ChangeDispenserStatus id state (new_Date updated_at)).
  - right. exists (GetSpending now id).
    unfold Routes.get_spending. by rewrite try_catch_fst.
Qed.

Lemma served_reachable this : served this → reachable this.
Proof.
  induction 1 as [|req this Hs IH]; [constructor|].
  destruct (serve_exec req this) as [->|[c ->]]; [done|by constructor].
Qed.

(** X16.  Through the routes every dispenser has a flow volume above zero:
    the checks of [POST /dispenser] keep NaN, which the manager's own check
    lets pass, away from the manager. *)
Theorem served_flow_volumes_above_zero this d :
  served this →
  d ∈ dispensers this →
  PrimFloat.ltb 0 (Dispenser.flow_volume d) = true.
Proof.
  intros Hs. revert d.
  cut (Forall (λ d, PrimFloat.ltb 0 (Dispenser.flow_volume d) = true)
         (dispensers this)).
  { intros H d Hd. rewrite Forall_forall in H. eauto. }
  induction Hs as [|req this Hs IH]; [constructor|].
  destruct req as [|uuid now flow_volume|id status_ updated_at|now id]; simpl.
  - done.
  - unfold Routes.post_dispenser, Routes.respond, Routes.try_catch.
    destruct (Routes.truthy flow_volume) eqn:Ht; simpl; [|done].
    destruct flow_volume as [[| |b|x|s]|s]; try done.
    unfold createDispenser. unfold_M.
    destruct (PrimFloat.leb x 0) eqn:Hle; [done|]. simpl.
    apply Forall_app. split; [done|]. apply Forall_singleton. simpl.
    by apply number_above_zero.
  - unfold Routes.put_status, Routes.respond.
    destruct (negb (Routes.truthy status_) || negb (Routes.truthy updated_at));
      [done|].
    rewrite try_catch_fst.
    destruct (changeDispenserStatus_of_cases id status_ (new_Date updated_at) this)
      as [(state & -> & ->)|[_ [[_ ->]|[_ ->]]]]; [|done..].
    pose proof (changeDispenserStatus_outcome id state (new_Date updated_at) this)
      as Ho.
    destruct (changeDispenserStatus id state (new_Date updated_at) this)
      as [this' r].
    simpl in *.
    destruct Ho; simpl; try done.
    all: apply Forall_insert; [done|]; simpl.
    all: match goal with H : find_dispenser _ _ = Some _ |- _ =>
           apply find_dispenser_Some in H as [Hi _] end.
    all: by eapply (Forall_lookup_1 _ _ _ _ IH).
  - unfold Routes.get_spending. rewrite try_catch_fst.
    by rewrite getSpending_dispensers.
Qed.

(** [put_status] in terms of what the manager's method does. *)
Lemma put_status_unfold id status_ updated_at this :
  put_status id status_ updated_at this
  = if negb (Routes.truthy status_) || negb (Routes.truthy updated_at)
    then (this, {| status := 400;
                   body := JsonError STATUS_UPDATED_AT_FIELDS_REQUIRED |})
    else
      match changeDispenserStatus_of id status_ (new_Date updated_at) this with
      | (this', Return (Failure _)) =>
          (this', {| status := 409;
                     body := JsonMessage
                               (ManagerMessage DISPENSER_ALREADY_IN_DESIRED_STATE) |})
      | (this', Return (Success _)) => (this', {| status := 202; body := NoBody |})
      | (this', Throw (Error INVALID_DISPENSER_STATUS)) =>
          (this', {| status := 400;
                     body := JsonError (ManagerMessage INVALID_DISPENSER_STATUS) |})
      | (this', Throw (Error INVALID_DATE_FORMAT)) =>
          (this', {| status := 400;
                     body := JsonError (ManagerMessage INVALID_DATE_FORMAT) |})
      | (this', Throw (Error DISPENSER_NOT_FOUND)) =>
          (this', {| status := 404;
                     body := JsonError (ManagerMessage DISPENSER_NOT_FOUND) |})
      | (this', Throw _) =>
          (this', {| status := 500; body := JsonError INTERNAL_SERVER_ERROR |})
      end.
Proof.
  unfold Routes.put_status, Routes.respond, Routes.try_catch.
  destruct (negb (Routes.truthy status_) || negb (Routes.truthy updated_at));
    [done|].
  destruct (changeDispenserStatus_of id status_ (new_Date updated_at) this)
    as [this' [[m|d]|[[]|]]]; done.
Qed.


(** X18.  [PUT /dispenser/:id/status] answers 202, 400, 404, 409 or 500,
    and when it answers 400, 404 or 409 it has left the store as it was. *)
Theorem put_status_refusals_keep_store this id status_ updated_at :
  status (snd (put_status id status_ updated_at this))
  ∈ [202; 400; 404; 409; 500]%nat ∧
  (status (snd (put_status id status_ updated_at this))
   ∈ [400; 404; 409]%nat →
   fst (put_status id status_ updated_at this) = this).
Proof.
  assert (∀ n : nat, n ∈ [202; 400; 404; 409; 500]%nat
          ↔ n = 202 ∨ n = 400 ∨ n = 404 ∨ n = 409 ∨ n = 500)%nat as Hall
    by (intros n; rewrite !elem_of_cons, elem_of_nil; tauto).
  assert (∀ n : nat, n ∈ [400; 404; 409]%nat
          ↔ n = 400 ∨ n = 404 ∨ n = 409)%nat as Hsome
    by (intros n; rewrite !elem_of_cons, elem_of_nil; tauto).
  rewrite Hall, Hsome. clear Hall Hsome.
  rewrite put_status_unfold.
  destruct (negb (Routes.truthy status_) || negb (Routes.truthy updated_at)).
  { simpl. split; [lia|done]. }
  destruct (changeDispenserStatus_of_cases id status_ (new_Date updated_at) this)
    as [(state & -> & ->)|[_ [[_ ->]|[_ ->]]]];
    [|simpl; split; [lia|done]..].
  pose proof (changeDispenserStatus_outcome id state (new_Date updated_at) this)
    as Ho.
  destruct (changeDispenserStatus id state (new_Date updated_at) this)
    as [this' r].
  simpl in *.
  destruct Ho; simpl; (split; [lia|]); try done; lia.
Qed.


(** X20.  [PUT /dispenser/:id/status] answers 202, with no body, only when
    the status is the string "open" or "close" and the dispenser was in the
    other state; the dispenser found under the id afterwards is in the
    requested state, with the date made of [updated_at] as its
    [updated_at]. *)
Theorem put_status_202 this id status_ updated_at :
  status (snd (put_status id status_ updated_at this)) = 202%nat →
  ∃ state i d,
    status_ = Primitive (VString state) ∧
    (state = OPEN ∨ state = CLOSE) ∧
    find_dispenser id (dispensers this) = Some (i, d) ∧
    Dispenser.state d ≠ state ∧
    find_dispenser id (dispensers (fst (put_status id status_ updated_at this)))
    = Some (i, assigned d state (new_Date updated_at)) ∧
    body (snd (put_status id status_ updated_at this)) = NoBody.
Proof.
  rewrite put_status_unfold.
  destruct (negb (Routes.truthy status_) || negb (Routes.truthy updated_at));
    [done|].
  destruct (changeDispenserStatus_of_cases id status_ (new_Date updated_at) this)
    as [(state & -> & ->)|[_ [[_ ->]|[_ ->]]]]; [|done..].
  pose proof (changeDispenserStatus_outcome id state (new_Date updated_at) this)
    as Ho.
  destruct (changeDispenserStatus id state (new_Date updated_at) this)
    as [this' r].
  simpl in *.
  destruct Ho as [ | | | | i d t Hfind -> Hu Hst Hl
                   | i d t l p Hfind -> Hu Hst Hl Hp Hle
                   | i d t l Hfind -> Hu Hst Hl Hle
                   | i d t Hfind -> Hu Hst Hl
                   | i d t Hfind -> Hu Hst Hl
                   | i d t l p Hfind -> Hu Hst Hl Hle
                   | i d t l p Hfind -> Hu Hst Hl Hle]; try done.
  all: intros _; eexists _, i, d; simpl.
  all: repeat split; eauto.
  all: eapply find_dispenser_insert; [done|].
  all: by apply find_dispenser_Some in Hfind as [_ ?].
Qed.

(** X21.  On a reachable store [GET /dispenser/:id/spending] answers 404
    exactly when no dispenser has the id, and otherwise 200 with the object
    [getSpending] returns; it never answers 400 or 500, and the store it
    leaves is the one [getSpending] leaves. *)
Theorem get_spending_response this now id :
  reachable this →
  (status (snd (get_spending now id this)) = 404%nat
   ↔ find_dispenser id (dispensers this) = None) ∧
  (is_Some (find_dispenser id (dispensers this)) →
   ∃ spending,
     getSpending now id this
     = (fst (getSpending now id this), Return spending) ∧
     get_spending now id this
     = (fst (getSpending now id this),
        {| status := 200; body := JsonSpending spending |})).
Proof.
  intros Hr. unfold Routes.get_spending, Routes.try_catch.
  destruct (find_dispenser id (dispensers this)) as [[i d]|] eqn:Hfind.
  - destruct (getSpending_returns this now id Hr) as [r Hret]; [by rewrite Hfind|].
    destruct (getSpending now id this) as [this' c]. simpl in *. subst c.
    simpl. split; [done|]. intros _. by exists r.
  - split; [|by intros [? ?]].
    unfold getSpending. unfold_M. by rewrite Hfind.
Qed.

End Properties.

(** * The manager on concrete calls *)

Example tap_open_store :
  tap_open
  = {| dispensers := [tap OPEN 100];
       statusChanges := {["tap" := [period 100 None None]]};
       totalSpentPerDispenser := ∅ |}.
Proof. vm_compute. reflexivity. Qed.

Example tap_closed_store :
  tap_closed
  = {| dispensers := [tap CLOSE 2100];
       statusChanges := {["tap" := [period 100 (Some 2100) (Some 24.5%float)]]};
       totalSpentPerDispenser := {["tap" := 24.5%float]} |}.
Proof. vm_compute. reflexivity. Qed.


(** The refused close of the open tap at time 50. *)
Lemma changeDispenserStatus_date_order_keeps_assignment_witness :
  ∃ i d,
    find_dispenser "tap" (dispensers tap_open) = Some (i, d) ∧
    (CLOSE = OPEN ∨ CLOSE = CLOSE) ∧
    DateOps.parse_isNaN (ValidDate 50) = false ∧
    Dispenser.state d ≠ CLOSE ∧
    find_dispenser "tap" (dispensers tap_close_refused)
    = Some (i, {| Dispenser.id := Dispenser.id d;
                  Dispenser.flow_volume := Dispenser.flow_volume d;
                  Dispenser.state := CLOSE;
                  Dispenser.updated_at := ValidDate 50 |}) ∧
    statusChanges tap_close_refused = statusChanges tap_open ∧
    totalSpentPerDispenser tap_close_refused = totalSpentPerDispenser tap_open.
Proof.
  apply (changeDispenserStatus_date_order_keeps_assignment EXAMPLE_PRICE
           tap_open tap_close_refused "tap" CLOSE (ValidDate 50)).
  vm_compute. reflexivity.
Defined.



Lemma tap_closed_reachable : reachable EXAMPLE_PRICE tap_closed.
Proof. repeat apply reachable_exec_all. constructor. Qed.


(** The tap created, opened at 100, closed at 2100 and queried. *)
Lemma open_close_getSpending_witness :
  ∃ amount,
    getSpending EXAMPLE_PRICE 5000 "tap" tap_closed
    = (tap_closed,
       Return {| amount := amount;
                 usages :=
                   [{| StatusChange.opened_at := ValidDate 100;
                       StatusChange.closed_at := Some (ValidDate 2100);
                       StatusChange.flow_volume := Dispenser.flow_volume (tap CLOSE 0);
                       StatusChange.total_spent :=
                         Some (calculateTotalSpent EXAMPLE_PRICE (ValidDate 100)
                                 (ValidDate 2100)
                                 (Dispenser.flow_volume (tap CLOSE 0))) |}] |}).
Proof.
  apply (open_close_getSpending EXAMPLE_PRICE new_DispenserManager "tap" 0
           (VNumber 1) (tap CLOSE 0) tap_created
           (ValidDate 100) (tap OPEN 100) tap_open
           (ValidDate 2100) (tap CLOSE 2100) tap_closed 5000).
  - constructor.
  - reflexivity.
  - vm_compute. reflexivity.
  - vm_compute. reflexivity.
  - vm_compute. reflexivity.
Defined.

(** A query for an id that no dispenser has, and one for the tap just
    created. *)
Lemma getSpending_not_found_or_never_opened_witness :
  snd (getSpending EXAMPLE_PRICE 7 "keg" tap_created)
  = Throw (Error DISPENSER_NOT_FOUND) ∧
  getSpending EXAMPLE_PRICE 7 "tap" tap_created
  = (tap_created, Return {| amount := 0; usages := [] |}).
Proof.
  split.
  - apply (proj1 (getSpending_not_found_or_never_opened EXAMPLE_PRICE
                    tap_created 7 "keg")).
    intros (d & Hd & Hid). apply list_elem_of_singleton in Hd. by subst d.
  - apply (proj2 (getSpending_not_found_or_never_opened EXAMPLE_PRICE
                    tap_created 7 "tap")).
    + exists (tap CLOSE 0). split; [apply list_elem_of_here|reflexivity].
    + reflexivity.
Defined.

(** C5, on the code.  The open tap has no stored running total.  A spending
    query one second after it opened assigns the estimate 12.25 to the open
    period, leaves the period without a [closed_at], returns 12.25 as the
    amount, and stores 12.25 as the tap's running total: the stored total
    after the query is not the stored total before it. *)
Theorem getSpending_open_period_stores_estimate :
  totalSpentPerDispenser tap_open !! "tap" = None ∧
  getSpending EXAMPLE_PRICE 1100 "tap" tap_open
  = ({| dispensers := [tap OPEN 100];
        statusChanges := {["tap" := [period 100 None (Some 12.25%float)]]};
        totalSpentPerDispenser := {["tap" := 12.25%float]} |},
     Return {| amount := 12.25;
               usages := [period 100 None (Some 12.25%float)] |}).
Proof. vm_compute. split; reflexivity. Qed.

(** The estimates pile up: two queries, at one and at two seconds, and then
    the close at two seconds leave a running total of 61.25 for a single
    period whose total is 24.5. *)
Example getSpending_estimates_accumulate :
  exec_all EXAMPLE_PRICE
    [GetSpending 1100 "tap"; GetSpending 2100 "tap";
     ChangeDispenserStatus "tap" CLOSE (ValidDate 2100)] tap_open
  = {| dispensers := [tap CLOSE 2100];
       statusChanges := {["tap" := [period 100 (Some 2100) (Some 24.5%float)]]};
       totalSpentPerDispenser := {["tap" := 61.25%float]} |}.
Proof. vm_compute. reflexivity. Qed.

(** C6, on the code.  Create the tap, open it at 100, request a close at 50
    (refused, but the state is now [CLOSE]), open it at 60: the store is
    reachable, and the tap's usage array holds two periods without a
    [closed_at], the second opened before the first; it is neither
    time-ordered nor open in its last period only. *)
Theorem refused_close_breaks_usage_order :
  tap_reopened
  = exec_all EXAMPLE_PRICE
      [CreateDispenser "tap" 0 (VNumber 1);
       ChangeDispenserStatus "tap" OPEN (ValidDate 100);
       ChangeDispenserStatus "tap" CLOSE (ValidDate 50);
       ChangeDispenserStatus "tap" OPEN (ValidDate 60)] new_DispenserManager ∧
  reachable EXAMPLE_PRICE tap_reopened ∧
  statusChanges tap_reopened !! "tap"
  = Some [period 100 None None; period 60 None None] ∧
  time_ordered [period 100 None None; period 60 None None] = false ∧
  open_only_last [period 100 None None; period 60 None None] = false ∧
  open_periods [period 100 None None; period 60 None None] = 2%nat.
Proof.
  split; [reflexivity|]. split.
  - repeat apply reachable_exec_all. constructor.
  - vm_compute. repeat split.
Qed.

(** C9, on the code.  NaN is of type number and [NaN <= 0] is false:
    [createDispenser] throws nothing for it, and pushes and returns a
    dispenser whose flow volume is NaN. *)
Theorem createDispenser_accepts_NaN uuid now this :
  createDispenser uuid now (VNumber PrimFloat.nan) this
  = ({| dispensers :=
          dispensers this
          ++ [{| Dispenser.id := uuid; Dispenser.flow_volume := PrimFloat.nan;
                 Dispenser.state := CLOSE;
                 Dispenser.updated_at := ValidDate now |}];
        statusChanges := statusChanges this;
        totalSpentPerDispenser := totalSpentPerDispenser this |},
     Return {| Dispenser.id := uuid; Dispenser.flow_volume := PrimFloat.nan;
               Dispenser.state := CLOSE;
               Dispenser.updated_at := ValidDate now |}).
Proof. reflexivity. Qed.

(** * Further runs *)

Lemma tap_created_reachable : reachable EXAMPLE_PRICE tap_created.
Proof. repeat apply reachable_exec_all. constructor. Qed.


Lemma tap_close_refused_reachable : reachable EXAMPLE_PRICE tap_close_refused.
Proof. repeat apply reachable_exec_all. constructor. Qed.

Example tap_created_store :
  tap_created
  = {| dispensers := [tap CLOSE 0];
       statusChanges := ∅;
       totalSpentPerDispenser := ∅ |}.
Proof. vm_compute. reflexivity. Qed.

Example tap_close_refused_store :
  tap_close_refused
  = {| dispensers := [tap CLOSE 50];
       statusChanges := {["tap" := [period 100 None None]]};
       totalSpentPerDispenser := ∅ |}.
Proof. vm_compute. reflexivity. Qed.


(** A query on the closed tap. *)
Lemma getSpending_frame_witness :
  fst (getSpending EXAMPLE_PRICE 5000 "tap" tap_closed) = tap_closed.
Proof.
  apply (getSpending_frame EXAMPLE_PRICE tap_closed 5000 "tap").
  intros (l0 & p0 & Hl & Hc).
  rewrite tap_closed_store in Hl. simpl in Hl.
  rewrite lookup_singleton_eq in Hl.
  assert (p0 = period 100 (Some 2100) (Some 24.5%float)) as ->.
  { destruct l0 as [|a [|b l0]]; by inversion Hl. }
  discriminate Hc.
Defined.

(** Opening the tap leaves alone what is kept under the id "keg". *)
Lemma exec_other_ids_witness :
  statusChanges
    (exec EXAMPLE_PRICE (ChangeDispenserStatus "tap" OPEN (ValidDate 100))
       tap_created) !! "keg"
  = statusChanges tap_created !! "keg" ∧
  totalSpentPerDispenser
    (exec EXAMPLE_PRICE (ChangeDispenserStatus "tap" OPEN (ValidDate 100))
       tap_created) !! "keg"
  = totalSpentPerDispenser tap_created !! "keg" ∧
  ∀ j d0, dispensers tap_created !! j = Some d0 → Dispenser.id d0 = "keg" →
          dispensers
            (exec EXAMPLE_PRICE
               (ChangeDispenserStatus "tap" OPEN (ValidDate 100)) tap_created)
          !! j = Some d0.
Proof.
  apply (exec_other_ids EXAMPLE_PRICE
           (ChangeDispenserStatus "tap" OPEN (ValidDate 100)) tap_created "keg").
  discriminate.
Defined.





(** The dispenser of the closed tap store. *)
Lemma reachable_dispensers_ok_witness :
  (Dispenser.state (tap CLOSE 2100) = OPEN
   ∨ Dispenser.state (tap CLOSE 2100) = CLOSE) ∧
  PrimFloat.leb (Dispenser.flow_volume (tap CLOSE 2100)) 0 = false ∧
  ∃ t, Dispenser.updated_at (tap CLOSE 2100) = ValidDate t.
Proof.
  apply (reachable_dispensers_ok EXAMPLE_PRICE tap_closed (tap CLOSE 2100)).
  - exact tap_closed_reachable.
  - rewrite tap_closed_store. apply list_elem_of_here.
Defined.

(** The one period of the closed tap store. *)
Lemma reachable_periods_ok_witness :
  ∃ i d o,
    find_dispenser "tap" (dispensers tap_closed) = Some (i, d) ∧
    StatusChange.flow_volume (period 100 (Some 2100) (Some 24.5%float))
    = Dispenser.flow_volume d ∧
    StatusChange.opened_at (period 100 (Some 2100) (Some 24.5%float))
    = ValidDate o ∧
    ∀ c, StatusChange.closed_at (period 100 (Some 2100) (Some 24.5%float))
         = Some c →
         ∃ c', c = ValidDate c' ∧ o < c'.
Proof.
  apply (reachable_periods_ok EXAMPLE_PRICE tap_closed "tap"
           [period 100 (Some 2100) (Some 24.5%float)]).
  - exact tap_closed_reachable.
  - vm_compute. reflexivity.
  - apply list_elem_of_here.
Defined.

(** The keys of the closed tap store. *)
Lemma reachable_keys_witness :
  (∀ x, totalSpentPerDispenser tap_closed !! "tap" = Some x →
        is_Some (statusChanges tap_closed !! "tap")) ∧
  (∀ l, statusChanges tap_closed !! "tap" = Some l →
        l ≠ [] ∧ is_Some (find_dispenser "tap" (dispensers tap_closed))).
Proof.
  apply (reachable_keys EXAMPLE_PRICE tap_closed "tap").
  exact tap_closed_reachable.
Defined.

(** Calls on the closed tap store. *)
Lemma reachable_no_TypeError_witness :
  (∀ id state updatedAt,
     snd (changeDispenserStatus EXAMPLE_PRICE id state updatedAt tap_closed)
     ≠ Throw TypeError) ∧
  (∀ now id, snd (getSpending EXAMPLE_PRICE now id tap_closed) ≠ Throw TypeError).
Proof.
  apply (reachable_no_TypeError EXAMPLE_PRICE tap_closed).
  exact tap_closed_reachable.
Defined.

Lemma tap_closed_unrefused : reachable_unrefused EXAMPLE_PRICE tap_closed.
Proof.
  change tap_closed with
    (exec EXAMPLE_PRICE (ChangeDispenserStatus "tap" CLOSE (ValidDate 2100))
       (exec EXAMPLE_PRICE (ChangeDispenserStatus "tap" OPEN (ValidDate 100))
          (exec EXAMPLE_PRICE (CreateDispenser "tap" 0 (VNumber 1))
             new_DispenserManager))).
  repeat apply unrefused_exec; try apply unrefused_new;
    unfold refused; try (intros H; vm_compute in H; discriminate H).
  intros [].
Qed.

(** The tap created, opened and closed, with no request refused. *)
Lemma unrefused_runs_keep_order_witness :
  (∀ id l, statusChanges tap_closed !! id = Some l →
     time_ordered l = true ∧ open_only_last l = true) ∧
  (∀ id i d, find_dispenser id (dispensers tap_closed) = Some (i, d) →
     (Dispenser.state d = OPEN ↔ last_open (statusChanges tap_closed !! id))).
Proof.
  apply (unrefused_runs_keep_order EXAMPLE_PRICE tap_closed).
  exact tap_closed_unrefused.
Defined.

(** Two queries on the open tap, one and two seconds after it opened: the
    running total holds 12.25 + 24.5, the period's total 24.5. *)
Lemma getSpending_twice_witness :
  getSpending EXAMPLE_PRICE 2100 "tap"
    (fst (getSpending EXAMPLE_PRICE 1100 "tap" tap_open))
  = ({| dispensers := [tap OPEN 100];
        statusChanges := {["tap" := [period 100 None (Some 24.5%float)]]};
        totalSpentPerDispenser := {["tap" := 36.75%float]} |},
     Return {| amount := 36.75;
               usages := [period 100 None (Some 24.5%float)] |}).
Proof.
  pose proof (getSpending_twice EXAMPLE_PRICE tap_open 1100 2100 "tap" 0
                (tap OPEN 100) [] (period 100 None None)) as H.
  cbv zeta in H. rewrite H.
  - vm_compute. reflexivity.
  - vm_compute. reflexivity.
  - vm_compute. reflexivity.
  - reflexivity.
Defined.


(** [POST /dispenser] with no flow volume, with a string, with -1 and
    with 1. *)
Lemma post_dispenser_response_witness :
  Routes.post_dispenser "tap" 0 (Primitive VUndefined) new_DispenserManager
  = (new_DispenserManager,
     {| status := 400; body := JsonError FLOW_VOLUME_REQUIRED |}) ∧
  Routes.post_dispenser "tap" 0 (Primitive (VString "1")) new_DispenserManager
  = (new_DispenserManager,
     {| status := 400; body := JsonError FLOW_VOLUME_MUST_BE_NUMBER |}) ∧
  Routes.post_dispenser "tap" 0 (Primitive (VNumber (-1))) new_DispenserManager
  = (new_DispenserManager,
     {| status := 400; body := JsonError FLOW_VOLUME_POSITIVE |}) ∧
  Routes.post_dispenser "tap" 0 (Primitive (VNumber 1)) new_DispenserManager
  = ({| dispensers := dispensers new_DispenserManager ++ [tap CLOSE 0];
        statusChanges := statusChanges new_DispenserManager;
        totalSpentPerDispenser := totalSpentPerDispenser new_DispenserManager |},
     {| status := 200; body := JsonDispenser "tap" 1 |}).
Proof.
  split; [|split; [|split]].
  - apply (proj1 (post_dispenser_response "tap" 0 (Primitive VUndefined)
                    new_DispenserManager)).
    reflexivity.
  - apply (proj1 (proj2 (post_dispenser_response "tap" 0
                           (Primitive (VString "1")) new_DispenserManager)));
      [reflexivity|discriminate].
  - apply (proj1 (proj2 (proj2 (post_dispenser_response "tap" 0
                                  (Primitive (VNumber (-1)))
                                  new_DispenserManager))) (-1)%float);
      reflexivity.
  - apply (proj1 (proj2 (proj2 (proj2 (post_dispenser_response "tap" 0
                                         (Primitive (VNumber 1))
                                         new_DispenserManager)))) 1%float);
      reflexivity.
Defined.

Lemma tap_created_served : Routes.served EXAMPLE_PRICE EXAMPLE_PARSE tap_created.
Proof.
  change tap_created with
    (fst (Routes.serve EXAMPLE_PRICE EXAMPLE_PARSE post_tap new_DispenserManager)).
  apply Routes.served_request, Routes.served_new.
Qed.

Lemma tap_open_served : Routes.served EXAMPLE_PRICE EXAMPLE_PARSE tap_open.
Proof.
  assert (tap_open
          = fst (Routes.serve EXAMPLE_PRICE EXAMPLE_PARSE (put_tap OPEN 100)
                   tap_created)) as -> by (vm_compute; reflexivity).
  apply Routes.served_request, tap_created_served.
Qed.

(** The tap, created and opened through the routes. *)
Lemma served_flow_volumes_above_zero_witness :
  PrimFloat.ltb 0 (Dispenser.flow_volume (tap OPEN 100)) = true.
Proof.
  apply (served_flow_volumes_above_zero EXAMPLE_PRICE EXAMPLE_PARSE tap_open
           (tap OPEN 100)).
  - exact tap_open_served.
  - rewrite tap_open_store. apply list_elem_of_here.
Defined.


(** A request to open the open tap again: 409, and the store is as it
    was. *)
Lemma put_status_refusals_keep_store_witness :
  fst (Routes.put_status EXAMPLE_PRICE EXAMPLE_PARSE "tap"
         (Primitive (VString OPEN)) (Primitive (VNumber 150)) tap_open)
  = tap_open.
Proof.
  apply (put_status_refusals_keep_store EXAMPLE_PRICE EXAMPLE_PARSE tap_open
           "tap" (Primitive (VString OPEN)) (Primitive (VNumber 150))).
  vm_compute. apply list_elem_of_further, list_elem_of_further, list_elem_of_here.
Defined.


(** A request to close the open tap at time 2100. *)
Lemma put_status_202_witness :
  ∃ state i d,
    Primitive (VString CLOSE) = Primitive (VString state) ∧
    (state = OPEN ∨ state = CLOSE) ∧
    find_dispenser "tap" (dispensers tap_open) = Some (i, d) ∧
    Dispenser.state d ≠ state ∧
    find_dispenser "tap"
      (dispensers
         (fst (Routes.put_status EXAMPLE_PRICE EXAMPLE_PARSE "tap"
                 (Primitive (VString CLOSE)) (Primitive (VNumber 2100))
                 tap_open)))
    = Some (i, assigned d state
                 (Routes.new_Date EXAMPLE_PARSE (Primitive (VNumber 2100)))) ∧
    body (snd (Routes.put_status EXAMPLE_PRICE EXAMPLE_PARSE "tap"
                 (Primitive (VString CLOSE)) (Primitive (VNumber 2100))
                 tap_open))
    = NoBody.
Proof.
  apply (put_status_202 EXAMPLE_PRICE EXAMPLE_PARSE tap_open "tap"
           (Primitive (VString CLOSE)) (Primitive (VNumber 2100))).
  vm_compute. reflexivity.
Defined.

(** Spending requests for an id that no dispenser has and for the closed
    tap. *)
Lemma get_spending_response_witness :
  status (snd (Routes.get_spending EXAMPLE_PRICE 5000 "keg" tap_closed))
  = 404%nat ∧
  ∃ spending,
    getSpending EXAMPLE_PRICE 5000 "tap" tap_closed
    = (fst (getSpending EXAMPLE_PRICE 5000 "tap" tap_closed), Return spending) ∧
    Routes.get_spending EXAMPLE_PRICE 5000 "tap" tap_closed
    = (fst (getSpending EXAMPLE_PRICE 5000 "tap" tap_closed),
       {| status := 200; body := JsonSpending spending |}).
Proof.
  split.
  - apply (proj1 (get_spending_response EXAMPLE_PRICE tap_closed 5000 "keg"
                    tap_closed_reachable)).
    reflexivity.
  - apply (proj2 (get_spending_response EXAMPLE_PRICE tap_closed 5000 "tap"
                    tap_closed_reachable)).
    eexists. vm_compute. reflexivity.
Defined.
